(** * csg.js primitives: elliptic cylinder, cylinder, ellipsoid, sphere

  A shallow embedding of [src/primitives/cylinderElliptic.js] and of the
  ellipsoid module, with the properties of the specification stated over it.

  JavaScript numbers are read as real numbers (the specification's data
  model: "three real-valued components"), with [Math.cos], [Math.sin],
  [Math.acos] and [Math.PI] the functions and constant of analysis.  The
  one place where the code can produce a NaN from valid numbers,
  [Math.acos] outside [-1, 1], is kept: it yields [None], and a comparison
  with it is false. *)

From Stdlib Require Import Reals Lra Lia ZArith List String Bool.
Import ListNotations.
Local Open Scope R_scope.

(** ** JavaScript numbers *)

Module Num.

Definition ltb (a b : R) : bool := if Rlt_dec a b then true else false.
Definition leb (a b : R) : bool := if Rle_dec a b then true else false.
Definition gtb (a b : R) : bool := ltb b a.
(** [a === b] on numbers *)
Definition eqb (a b : R) : bool := if Req_dec_T a b then true else false.

(** [Math.floor] *)
Definition floor (a : R) : Z := Zfloor a.
(** [Math.round]: the nearest integer, halves going up *)
Definition round (a : R) : Z := Zfloor (a + 1 / 2).
(** truncation towards zero, the quotient of [%] *)
Definition trunc (a : R) : Z :=
  if Rlt_dec a 0 then (- Zfloor (- a))%Z else Zfloor a.
(** [a % b]: the remainder has the sign of the dividend *)
Definition rem (a b : R) : R := a - b * IZR (trunc (a / b)).
(** [Math.min] of four numbers *)
Definition min4 (a b c d : R) : R := Rmin (Rmin a b) (Rmin c d).
(** [Math.acos]: NaN (here [None]) outside [-1, 1] *)
Definition acos (a : R) : option R :=
  if Rle_dec (-1) a then if Rle_dec a 1 then Some (Ratan.acos a) else None
  else None.
(** [a < b] where [b] may be NaN: any comparison with NaN is false *)
Definition ltb_nan (a : R) (b : option R) : bool :=
  match b with Some b' => ltb a b' | None => false end.

End Num.

(** ** The result of a call: a value, or a thrown [Error] with its message *)

Inductive result (A : Type) : Type :=
| Return (value : A)
| Throw (message : string).
Arguments Return {A} value.
Arguments Throw {A} message.

(** An argument that the code tests with [Array.isArray]. *)
Inductive jsarray : Type :=
| NotArray
| JArray (elements : list R).

(** ** math/vec3 *)

Module vec3.

Record t : Type := fromValues { x : R; y : R; z : R }.

(** Modelled from the spec: the module math/vec3 is not among the sources;
    "Vector3 Algebra: add, subtract, scale(scalar, v), dot, cross, length,
    unit (normalize)", all pure, on three real components. *)
Definition add (a b : t) : t :=
  fromValues (x a + x b) (y a + y b) (z a + z b).
Definition subtract (a b : t) : t :=
  fromValues (x a - x b) (y a - y b) (z a - z b).
Definition scale (amount : R) (v : t) : t :=
  fromValues (amount * x v) (amount * y v) (amount * z v).
Definition dot (a b : t) : R := x a * x b + y a * y b + z a * z b.
Definition cross (a b : t) : t :=
  fromValues (y a * z b - z a * y b)
             (z a * x b - x a * z b)
             (x a * y b - y a * x b).
Definition length (v : t) : R := sqrt (dot v v).
Definition unit (v : t) : t :=
  fromValues (x v / length v) (y v / length v) (z v / length v).

(** Modelled from the spec: [vec3.random] is not among the sources;
    "arbitraryOrthogonalSeed(v) returns some unit vector not parallel to v
    ... a fixed fallback (e.g., try the global X axis, else Y axis if
    nearly parallel)": the global axis along which [v] is smallest. *)
Definition random (v : t) : t :=
  if Num.leb (Rabs (x v)) (Rabs (y v)) && Num.leb (Rabs (x v)) (Rabs (z v))
  then fromValues 1 0 0
  else if Num.leb (Rabs (y v)) (Rabs (x v)) && Num.leb (Rabs (y v)) (Rabs (z v))
  then fromValues 0 1 0
  else fromValues 0 0 1.

(** A JavaScript array used as a vector: its first three elements. *)
Definition ofArray (a : list R) : t :=
  fromValues (nth 0 a 0) (nth 1 a 0) (nth 2 a 0).

(** Equality of vectors is decided component by component. *)
Definition eq_dec (a b : t) : {a = b} + {a <> b}.
Proof.
  destruct a as [a1 a2 a3], b as [b1 b2 b3].
  destruct (Req_dec_T a1 b1) as [-> | n1]; [| right; congruence].
  destruct (Req_dec_T a2 b2) as [-> | n2]; [| right; congruence].
  destruct (Req_dec_T a3 b3) as [-> | n3]; [| right; congruence].
  left; reflexivity.
Defined.

End vec3.

(** ** geometry/poly3 and geometry/geom3 *)

Module poly3.

Record t : Type := { vertices : list vec3.t }.

(** Modelled from the spec: geometry/poly3 is not among the sources;
    "constructing a Polygon from a point sequence and reading back its
    vertex sequence must return exactly the input points in the same
    order".  The generators only pass three or four points. *)
Definition fromPoints (points : list vec3.t) : t := {| vertices := points |}.

End poly3.

Module geom3.

Record t : Type := { polygons : list poly3.t }.

(** Modelled from the spec: geometry/geom3 is not among the sources;
    "create(polygons) wraps a sequence of polygons into a mesh record with
    no further computation". *)
Definition create (polygons : list poly3.t) : t := {| polygons := polygons |}.

End geom3.

(** ** primitives/cylinderElliptic.js *)

Module CylinderElliptic.
(** The options object; an absent field is [None]. *)
Record options : Type := {
  center : option jsarray;
  height : option R;
  startRadius : option (R * R);
  startAngle : option R;
  endRadius : option (R * R);
  endAngle : option R;
  segments : option Z
}.
End CylinderElliptic.

Module Cylinder.
Record options : Type := {
  center : option jsarray;
  height : option R;
  startRadius : option R;
  startAngle : option R;
  endRadius : option R;
  endAngle : option R;
  segments : option Z
}.
End Cylinder.

(** [Object.assign({}, defaults, options)], field by field *)
Definition assign {A : Type} (default : A) (given : option A) : A :=
  match given with Some a => a | None => default end.

(** The body of [cylinderElliptic] below its validation: the two closures
  [point] and [fromPoints], the loop over the slices and the walls of a
  partial sweep, over the local variables they capture. *)
Section CylinderEllipticBody.

Variables (center : list R) (startRadius endRadius : R * R).
Variables (startAngle rotation : R) (slices : Z).
Variables (start end_ ray axisX axisY : vec3.t).

Definition point (stack slice : R) (radius : R * R) : vec3.t :=
  let angle := slice * rotation + startAngle in
  let out :=
    vec3.add (vec3.scale (fst radius * cos angle) axisX)
             (vec3.scale (snd radius * sin angle) axisY) in
  let pos := vec3.add (vec3.add (vec3.scale stack ray) start) out in
  pos.

(** adjust the points to center *)
Definition fromPoints (points : list vec3.t) : poly3.t :=
  let newpoints := map (fun point => vec3.add point (vec3.ofArray center)) points in
  poly3.fromPoints newpoints.

(** One turn of [for (let i = 0; i < slices; i++)]: the polygons it pushes. *)
Definition slicePolygons (i : nat) : list poly3.t :=
  let t0 := INR i / IZR slices in
  let t1 := (INR i + 1) / IZR slices in
  if Num.eqb (fst endRadius) (fst startRadius) && Num.eqb (snd endRadius) (snd startRadius)
  then
    [ fromPoints [start; point 0 t0 endRadius; point 0 t1 endRadius];
      fromPoints [point 0 t1 endRadius; point 0 t0 endRadius;
                  point 1 t0 endRadius; point 1 t1 endRadius];
      fromPoints [end_; point 1 t1 endRadius; point 1 t0 endRadius] ]
  else
    (if Num.gtb (fst startRadius) 0
     then [ fromPoints [start; point 0 t0 startRadius; point 0 t1 startRadius];
            fromPoints [point 0 t0 startRadius; point 1 t0 endRadius;
                        point 0 t1 startRadius] ]
     else [])
    ++
    (if Num.gtb (fst endRadius) 0
     then [ fromPoints [end_; point 1 t1 endRadius; point 1 t0 endRadius];
            fromPoints [point 1 t0 endRadius; point 1 t1 endRadius;
                        point 0 t1 startRadius] ]
     else []).

(** The loop: [polygons] grows by [push] at each turn. *)
Definition sweepPolygons : list poly3.t :=
  fold_left (fun polygons i => polygons ++ slicePolygons i)
            (seq 0 (Z.to_nat slices)) [].

(** [if (rotation < (Math.PI * 2))]: the four walls of the wedge. *)
Definition wallPolygons : list poly3.t :=
  if Num.ltb rotation (PI * 2)
  then
    [ fromPoints [start; end_; point 0 0 startRadius];
      fromPoints [point 0 0 startRadius; end_; point 1 0 endRadius];
      fromPoints [start; point 0 1 startRadius; end_];
      fromPoints [point 0 1 startRadius; point 1 1 endRadius; end_] ]
  else [].

End CylinderEllipticBody.

(** Lines 49 to 58: the sweep, from the two angles already reduced. *)
Definition sweepRotation (startAngle endAngle : R) : R :=
  let rotation := PI * 2 in
  let rotation :=
    if Num.ltb startAngle endAngle then endAngle - startAngle else rotation in
  let rotation :=
    if Num.gtb startAngle endAngle then endAngle + (PI * 2 - startAngle)
    else rotation in
  rotation.

(** Lines 60 to 62. *)
Definition minAngle (EPS : R) (startRadius endRadius : R * R) : option R :=
  let minradius :=
    Num.min4 (fst startRadius) (snd startRadius) (fst endRadius) (snd endRadius) in
  Num.acos ((minradius * minradius + minradius * minradius - EPS * EPS)
            / (2 * minradius * minradius)).

Section Tolerance.

(** [EPS] of math/constants, which is not among the sources. *)
Variable EPS : R.

Definition cylinderElliptic (options : CylinderElliptic.options)
  : result geom3.t :=
  let center := assign (JArray [0; 0; 0]) (CylinderElliptic.center options) in
  let height := assign 2 (CylinderElliptic.height options) in
  let startRadius := assign (1, 1) (CylinderElliptic.startRadius options) in
  let startAngle := assign 0 (CylinderElliptic.startAngle options) in
  let endRadius := assign (1, 1) (CylinderElliptic.endRadius options) in
  let endAngle := assign (PI * 2) (CylinderElliptic.endAngle options) in
  let segments := assign 12%Z (CylinderElliptic.segments options) in
  match center with
  | NotArray => Throw "center must be an array"
  | JArray center =>
  if (List.length center <? 3)%nat
  then Throw "center must contain X, Y and Z values" else
  if Num.ltb height (EPS * 2)
  then Throw "height must be larger then zero" else
  if Num.leb (fst endRadius) 0 || Num.leb (fst startRadius) 0
     || Num.leb (snd endRadius) 0 || Num.leb (snd startRadius) 0
  then Throw "endRadus and startRadius should be positive" else
  if Num.ltb startAngle 0 || Num.ltb endAngle 0
  then Throw "startAngle and endAngle must be positive" else
  if (segments <? 4)%Z
  then Throw "segments must be four or more" else
  let startAngle := Num.rem startAngle (PI * 2) in
  let endAngle := Num.rem endAngle (PI * 2) in
  let rotation := sweepRotation startAngle endAngle in
  if Num.ltb_nan rotation (minAngle EPS startRadius endRadius)
  then Throw "startAngle and endAngle to not define a significant rotation" else
  let slices := Num.floor (IZR segments * (rotation / (PI * 2))) in
  let start := vec3.fromValues 0 0 (- (height / 2)) in
  let end_ := vec3.fromValues 0 0 (height / 2) in
  let ray := vec3.subtract end_ start in
  let axisZ := vec3.unit ray in
  let axisX := vec3.unit (vec3.random axisZ) in
  let axisY := vec3.unit (vec3.cross axisX axisZ) in
  let polygons :=
    sweepPolygons center startRadius endRadius startAngle rotation slices
                  start end_ ray axisX axisY
    ++ wallPolygons center startRadius endRadius startAngle rotation
                    start end_ ray axisX axisY in
  let result := geom3.create polygons in
  Return result
  end.

Definition cylinder (options : Cylinder.options) : result geom3.t :=
  let center := assign (JArray [0; 0; 0]) (Cylinder.center options) in
  let height := assign 2 (Cylinder.height options) in
  let startRadius := assign 1 (Cylinder.startRadius options) in
  let startAngle := assign 0 (Cylinder.startAngle options) in
  let endRadius := assign 1 (Cylinder.endRadius options) in
  let endAngle := assign (PI * 2) (Cylinder.endAngle options) in
  let segments := assign 12%Z (Cylinder.segments options) in
  let newoptions :=
    {| CylinderElliptic.center := Some center;
       CylinderElliptic.height := Some height;
       CylinderElliptic.startRadius := Some (startRadius, startRadius);
       CylinderElliptic.startAngle := Some startAngle;
       CylinderElliptic.endRadius := Some (endRadius, endRadius);
       CylinderElliptic.endAngle := Some endAngle;
       CylinderElliptic.segments := Some segments |} in
  cylinderElliptic newoptions.

End Tolerance.


(** ** The ellipsoid module *)

(** Sequencing of calls that may throw. *)
Definition bind {A B : Type} (call : result A) (rest : A -> result B) : result B :=
  match call with
  | Return a => rest a
  | Throw message => Throw message
  end.

Notation "x <- call ;; rest" := (bind call (fun x => rest))
  (at level 61, call at next level, right associativity).

(** A variable declared by [let] without a value is [undefined] ([None])
    until its first assignment; the vec3 functions throw on [undefined]. *)
Definition read {A B : Type} (variable : option A) (rest : A -> result B)
  : result B :=
  match variable with
  | Some a => rest a
  | None => Throw "TypeError: undefined is not an object"
  end.

(** [for (let i = 0; i <= last; i++)]: the values [i] takes. *)
Definition upTo (last : Z) : list nat := seq 0 (Z.to_nat (last + 1)).

(** A loop over the local variables [vars] that its body assigns. *)
Fixpoint forEach {V : Type} (body : V -> nat -> result V) (indices : list nat)
  (vars : V) : result V :=
  match indices with
  | [] => Return vars
  | i :: later => vars' <- body vars i ;; forEach body later vars'
  end.

Module Ellipsoid.
Record options : Type := {
  center : option jsarray;
  radius : option jsarray;
  segments : option Z;
  axes : option (vec3.t * vec3.t * vec3.t)
}.
End Ellipsoid.

Module Sphere.
Record options : Type := {
  center : option jsarray;
  radius : option R;
  segments : option Z;
  axes : option (vec3.t * vec3.t * vec3.t)
}.
End Sphere.

Definition defaultAxes : vec3.t * vec3.t * vec3.t :=
  (vec3.fromValues 1 0 0, vec3.fromValues 0 (-1) 0, vec3.fromValues 0 0 1).

(** The two nested loops of [ellipsoid], over the variables they capture. *)
Section EllipsoidBody.

Variables (center : list R) (segments qsegments : Z).
Variables (xvector yvector zvector : vec3.t).

(** Lines 51 to 79: the two polygons pushed for one cell. *)
Definition cellPolygons (prevcylinderpoint cylinderpoint : vec3.t)
  (prevcospitch prevsinpitch cospitch sinpitch : R) (slice2 : nat)
  : list poly3.t :=
  let center := vec3.ofArray center in
  let points :=
    [ vec3.add center (vec3.subtract (vec3.scale prevcospitch prevcylinderpoint)
                                     (vec3.scale prevsinpitch zvector));
      vec3.add center (vec3.subtract (vec3.scale prevcospitch cylinderpoint)
                                     (vec3.scale prevsinpitch zvector)) ]
    ++ (if (Z.of_nat slice2 <? qsegments)%Z
        then [ vec3.add center (vec3.subtract (vec3.scale cospitch cylinderpoint)
                                              (vec3.scale sinpitch zvector)) ]
        else [])
    ++ [ vec3.add center (vec3.subtract (vec3.scale cospitch prevcylinderpoint)
                                        (vec3.scale sinpitch zvector)) ] in
  let first := poly3.fromPoints points in
  let points :=
    [ vec3.add center (vec3.add (vec3.scale prevcospitch prevcylinderpoint)
                                (vec3.scale prevsinpitch zvector));
      vec3.add center (vec3.add (vec3.scale prevcospitch cylinderpoint)
                                (vec3.scale prevsinpitch zvector)) ]
    ++ (if (Z.of_nat slice2 <? qsegments)%Z
        then [ vec3.add center (vec3.add (vec3.scale cospitch cylinderpoint)
                                         (vec3.scale sinpitch zvector)) ]
        else [])
    ++ [ vec3.add center (vec3.add (vec3.scale cospitch prevcylinderpoint)
                                   (vec3.scale sinpitch zvector)) ] in
  let points := rev points in
  let second := poly3.fromPoints points in
  [first; second].

(** The variables of the inner loop: [prevcospitch], [prevsinpitch] and the
    array [polygons]. *)
Definition pitchVars : Type := (option R * option R * list poly3.t)%type.

(** One turn of [for (let slice2 = 0; slice2 <= qsegments; slice2++)]. *)
Definition pitchStep (prevcylinderpoint : option vec3.t) (cylinderpoint : vec3.t)
  (vars : pitchVars) (slice2 : nat) : result pitchVars :=
  let '(prevcospitch, prevsinpitch, polygons) := vars in
  let pitch := 0.5 * PI * INR slice2 / IZR qsegments in
  let cospitch := cos pitch in
  let sinpitch := sin pitch in
  polygons <-
    (if (0 <? slice2)%nat
     then
       read prevcospitch (fun prevcospitch =>
       read prevsinpitch (fun prevsinpitch =>
       read prevcylinderpoint (fun prevcylinderpoint =>
       Return (polygons ++ cellPolygons prevcylinderpoint cylinderpoint
                             prevcospitch prevsinpitch cospitch sinpitch slice2))))
     else Return polygons) ;;
  Return (Some cospitch, Some sinpitch, polygons).

(** The variables of the outer loop: [prevcylinderpoint] and [polygons]. *)
Definition sliceVars : Type := (option vec3.t * list poly3.t)%type.

(** One turn of [for (let slice1 = 0; slice1 <= segments; slice1++)]. *)
Definition sliceStep (vars : sliceVars) (slice1 : nat) : result sliceVars :=
  let '(prevcylinderpoint, polygons) := vars in
  let angle := PI * 2.0 * INR slice1 / IZR segments in
  let cylinderpoint :=
    vec3.add (vec3.scale (cos angle) xvector) (vec3.scale (sin angle) yvector) in
  polygons <-
    (if (0 <? slice1)%nat
     then
       inner <- forEach (pitchStep prevcylinderpoint cylinderpoint)
                        (upTo qsegments) (None, None, polygons) ;;
       Return (snd inner)
     else Return polygons) ;;
  Return (Some cylinderpoint, polygons).

End EllipsoidBody.

Definition ellipsoid (options : Ellipsoid.options) : result geom3.t :=
  let center := assign (JArray [0; 0; 0]) (Ellipsoid.center options) in
  let radius := assign (JArray [1; 1; 1]) (Ellipsoid.radius options) in
  let segments := assign 12%Z (Ellipsoid.segments options) in
  let axes := assign defaultAxes (Ellipsoid.axes options) in
  match center with
  | NotArray => Throw "center must be an array"
  | JArray center =>
  if (List.length center <? 3)%nat
  then Throw "center must contain X, Y and Z values" else
  match radius with
  | NotArray => Throw "radius must be an array"
  | JArray radius =>
  if (List.length radius <? 3)%nat
  then Throw "radius must contain X, Y and Z values" else
  if (segments <? 4)%Z
  then Throw "segments must be four or more" else
  let xvector := vec3.scale (nth 0 radius 0) (vec3.unit (fst (fst axes))) in
  let yvector := vec3.scale (nth 1 radius 0) (vec3.unit (snd (fst axes))) in
  let zvector := vec3.scale (nth 2 radius 0) (vec3.unit (snd axes)) in
  let qsegments := Num.round (IZR segments / 4) in
  final <- forEach (sliceStep center segments qsegments xvector yvector zvector)
                   (upTo segments) (None, []) ;;
  Return (geom3.create (snd final))
  end
  end.

Definition sphere (options : Sphere.options) : result geom3.t :=
  let center := assign (JArray [0; 0; 0]) (Sphere.center options) in
  let radius := assign 1 (Sphere.radius options) in
  let segments := assign 12%Z (Sphere.segments options) in
  let axes := assign defaultAxes (Sphere.axes options) in
  let radius := [radius; radius; radius] in
  ellipsoid {| Ellipsoid.center := Some center;
               Ellipsoid.radius := Some (JArray radius);
               Ellipsoid.segments := Some segments;
               Ellipsoid.axes := Some axes |}.


(** ** What the properties speak about *)

(** The fields of a configuration after the defaults are merged in. *)
Definition centerOf (o : CylinderElliptic.options) : jsarray :=
  assign (JArray [0; 0; 0]) (CylinderElliptic.center o).
Definition heightOf (o : CylinderElliptic.options) : R :=
  assign 2 (CylinderElliptic.height o).
Definition startRadiusOf (o : CylinderElliptic.options) : R * R :=
  assign (1, 1) (CylinderElliptic.startRadius o).
Definition endRadiusOf (o : CylinderElliptic.options) : R * R :=
  assign (1, 1) (CylinderElliptic.endRadius o).
Definition startAngleOf (o : CylinderElliptic.options) : R :=
  assign 0 (CylinderElliptic.startAngle o).
Definition endAngleOf (o : CylinderElliptic.options) : R :=
  assign (PI * 2) (CylinderElliptic.endAngle o).
Definition segmentsOf (o : CylinderElliptic.options) : Z :=
  assign 12%Z (CylinderElliptic.segments o).

(** The two angles reduced modulo 2π, the sweep and the number of slices
    that [cylinderElliptic] derives from a configuration. *)
Definition normalizedStart (o : CylinderElliptic.options) : R :=
  Num.rem (startAngleOf o) (PI * 2).
Definition normalizedEnd (o : CylinderElliptic.options) : R :=
  Num.rem (endAngleOf o) (PI * 2).
Definition rotationOf (o : CylinderElliptic.options) : R :=
  sweepRotation (normalizedStart o) (normalizedEnd o).
Definition slicesOf (o : CylinderElliptic.options) : Z :=
  Num.floor (IZR (segmentsOf o) * (rotationOf o / (PI * 2))).

(** The checks of lines 37 to 47, one per field, all passed. *)
Definition fieldsValid (EPS : R) (o : CylinderElliptic.options) : Prop :=
  (exists c, centerOf o = JArray c /\ (3 <= List.length c)%nat)
  /\ EPS * 2 <= heightOf o
  /\ 0 < fst (startRadiusOf o) /\ 0 < snd (startRadiusOf o)
  /\ 0 < fst (endRadiusOf o) /\ 0 < snd (endRadiusOf o)
  /\ 0 <= startAngleOf o /\ 0 <= endAngleOf o
  /\ (4 <= segmentsOf o)%Z.

(** The message of the check of line 63. *)
Definition insufficientRotation : string :=
  "startAngle and endAngle to not define a significant rotation".

(** The frame that [cylinderElliptic] builds: its axis is the global Z. *)
Definition cylinderAxisX : vec3.t := vec3.fromValues 1 0 0.
Definition cylinderAxisY : vec3.t := vec3.fromValues 0 (-1) 0.

(** The sweep and the walls of a valid configuration, as [cylinderElliptic]
    calls them. *)
Definition sweepOf (o : CylinderElliptic.options) (c : list R) : list poly3.t :=
  let h := heightOf o in
  sweepPolygons c (startRadiusOf o) (endRadiusOf o) (normalizedStart o)
    (rotationOf o) (slicesOf o)
    (vec3.fromValues 0 0 (- (h / 2))) (vec3.fromValues 0 0 (h / 2))
    (vec3.fromValues 0 0 h) cylinderAxisX cylinderAxisY.
Definition wallsOf (o : CylinderElliptic.options) (c : list R) : list poly3.t :=
  let h := heightOf o in
  wallPolygons c (startRadiusOf o) (endRadiusOf o) (normalizedStart o)
    (rotationOf o)
    (vec3.fromValues 0 0 (- (h / 2))) (vec3.fromValues 0 0 (h / 2))
    (vec3.fromValues 0 0 h) cylinderAxisX cylinderAxisY.

(** A message names a field when the field's name occurs in it. *)
Fixpoint names (field message : string) : bool :=
  match message with
  | EmptyString => String.prefix field message
  | String _ rest => String.prefix field message || names field rest
  end.

(** The directed edges of a polygon, in winding order, and of a mesh. *)
Definition edgesOf (p : poly3.t) : list (vec3.t * vec3.t) :=
  match poly3.vertices p with
  | [] => []
  | v :: rest => combine (v :: rest) (rest ++ [v])
  end.
Definition meshEdges (g : geom3.t) : list (vec3.t * vec3.t) :=
  flat_map edgesOf (geom3.polygons g).

Definition edge_eq_dec (e f : vec3.t * vec3.t) : {e = f} + {e <> f}.
Proof. decide equality; apply vec3.eq_dec. Defined.

(** Every edge is shared by exactly two polygons, with opposite winding:
    a directed edge occurs once in the mesh, and so does its reverse. *)
Definition closedManifold (g : geom3.t) : Prop :=
  forall a b, In (a, b) (meshEdges g) ->
    count_occ edge_eq_dec (meshEdges g) (a, b) = 1%nat
    /\ count_occ edge_eq_dec (meshEdges g) (b, a) = 1%nat.

(** The plane through the axis of the cylinder at the angle [angle] of its
    frame, for a cylinder centred at [center]: the points [p] with
    [(p - center)] orthogonal to [-sin angle * axisX + cos angle * axisY]. *)
Definition onBoundaryPlane (center : vec3.t) (angle : R) (p : vec3.t) : Prop :=
  vec3.dot (vec3.add (vec3.scale (- sin angle) cylinderAxisX)
                     (vec3.scale (cos angle) cylinderAxisY))
           (vec3.subtract p center) = 0.

(** The plane through the axis and the point of the rim of radii [radius]
    at the angle [angle]: the rim point is
    [fst radius * cos angle * axisX + snd radius * sin angle * axisY] from
    the axis.  For a circular rim it is the plane above. *)
Definition onRimPlane (center : vec3.t) (radius : R * R) (angle : R) (p : vec3.t)
  : Prop :=
  vec3.dot (vec3.add (vec3.scale (- (snd radius * sin angle)) cylinderAxisX)
                     (vec3.scale (fst radius * cos angle) cylinderAxisY))
           (vec3.subtract p center) = 0.

(** Four points in one plane: the triple product of the three differences. *)
Definition coplanar (a b c d : vec3.t) : Prop :=
  vec3.dot (vec3.cross (vec3.subtract b a) (vec3.subtract c a))
           (vec3.subtract d a) = 0.

(** The polygons with [n] vertices. *)
Definition withVertices (n : nat) (polygons : list poly3.t) : list poly3.t :=
  filter (fun p => (List.length (poly3.vertices p) =? n)%nat) polygons.

(** The tolerance that the examples are run with. *)
Definition sampleEPS : R := 1 / 100000.

(** *** The ellipsoid as the specification describes it *)

Section EllipsoidSurface.

Variables (center : vec3.t) (segments qsegments : Z).
Variables (xvector yvector zvector : vec3.t).

(** The equatorial point of a longitude step. *)
Definition cylinderPointAt (slice1 : nat) : vec3.t :=
  let angle := PI * 2 * INR slice1 / IZR segments in
  vec3.add (vec3.scale (cos angle) xvector) (vec3.scale (sin angle) yvector).

(** The pitch of a latitude step: a quarter turn in [qsegments] steps. *)
Definition pitchAt (slice2 : nat) : R := PI / 2 * INR slice2 / IZR qsegments.

(** [center + cos(pitch)·cylinderPoint + sin(pitch)·zvector]; the lower
    hemisphere takes the pitch with its sign flipped. *)
Definition surfacePoint (sign : R) (corner : nat * nat) : vec3.t :=
  let pitch := sign * pitchAt (snd corner) in
  vec3.add center
    (vec3.add (vec3.scale (cos pitch) (cylinderPointAt (fst corner)))
              (vec3.scale (sin pitch) zvector)).

(** The corners of the cell that ends at longitude step [slice1] and
    latitude step [slice2]; the far corner is left out in the last row. *)
Definition cellCorners (slice1 slice2 : nat) : list (nat * nat) :=
  [ (slice1 - 1, slice2 - 1); (slice1, slice2 - 1) ]%nat
  ++ (if (Z.of_nat slice2 <? qsegments)%Z then [ (slice1, slice2) ] else [])
  ++ [ (slice1 - 1, slice2)%nat ].

(** The two patches of a cell: the lower one in the order of the corners,
    the upper one in the reverse order. *)
Definition lowerPatch (slice1 slice2 : nat) : poly3.t :=
  poly3.fromPoints (map (surfacePoint (-1)) (cellCorners slice1 slice2)).
Definition upperPatch (slice1 slice2 : nat) : poly3.t :=
  poly3.fromPoints (rev (map (surfacePoint 1) (cellCorners slice1 slice2))).

(** All the cells, longitude by longitude, each with its two patches. *)
Definition allPatches : list poly3.t :=
  flat_map (fun slice1 =>
    flat_map (fun slice2 => [lowerPatch slice1 slice2; upperPatch slice1 slice2])
             (seq 1 (Z.to_nat qsegments)))
    (seq 1 (Z.to_nat segments)).

End EllipsoidSurface.

(** The fields of an ellipsoid configuration after the defaults. *)
Definition ellipsoidCenter (o : Ellipsoid.options) : jsarray :=
  assign (JArray [0; 0; 0]) (Ellipsoid.center o).
Definition ellipsoidRadius (o : Ellipsoid.options) : jsarray :=
  assign (JArray [1; 1; 1]) (Ellipsoid.radius o).
Definition ellipsoidSegments (o : Ellipsoid.options) : Z :=
  assign 12%Z (Ellipsoid.segments o).
Definition ellipsoidAxes (o : Ellipsoid.options) : vec3.t * vec3.t * vec3.t :=
  assign defaultAxes (Ellipsoid.axes o).

(** The scalar radii of a cylinder turned into the pairs of the elliptic
    cylinder, and the scalar radius of a sphere into a triple. *)
Definition ellipticOptions (o : Cylinder.options) : CylinderElliptic.options :=
  {| CylinderElliptic.center := Cylinder.center o;
     CylinderElliptic.height := Cylinder.height o;
     CylinderElliptic.startRadius :=
       option_map (fun r => (r, r)) (Cylinder.startRadius o);
     CylinderElliptic.startAngle := Cylinder.startAngle o;
     CylinderElliptic.endRadius :=
       option_map (fun r => (r, r)) (Cylinder.endRadius o);
     CylinderElliptic.endAngle := Cylinder.endAngle o;
     CylinderElliptic.segments := Cylinder.segments o |}.
Definition ellipsoidOptions (o : Sphere.options) : Ellipsoid.options :=
  {| Ellipsoid.center := Sphere.center o;
     Ellipsoid.radius :=
       option_map (fun r => JArray [r; r; r]) (Sphere.radius o);
     Ellipsoid.segments := Sphere.segments o;
     Ellipsoid.axes := Sphere.axes o |}.

(** *** Configurations that the examples run *)

(** [cylinder({height: 2, startRadius: 1, endRadius: 1, segments: 4})] *)
Definition fourSegmentCylinder : Cylinder.options :=
  {| Cylinder.center := None;
     Cylinder.height := Some 2;
     Cylinder.startRadius := Some 1;
     Cylinder.startAngle := None;
     Cylinder.endRadius := Some 1;
     Cylinder.endAngle := None;
     Cylinder.segments := Some 4%Z |}.

(** [cylinderElliptic({endAngle: Math.PI / 4, segments: 4})]: a sweep of
    half a segment. *)
Definition thinWedge : CylinderElliptic.options :=
  {| CylinderElliptic.center := None;
     CylinderElliptic.height := None;
     CylinderElliptic.startRadius := None;
     CylinderElliptic.startAngle := None;
     CylinderElliptic.endRadius := None;
     CylinderElliptic.endAngle := Some (PI / 4);
     CylinderElliptic.segments := Some 4%Z |}.

(** [cylinderElliptic({startRadius: [1, 2], endRadius: [2, 1],
    endAngle: Math.PI / 4})]: two ellipses of different shape. *)
Definition twistedWedge : CylinderElliptic.options :=
  {| CylinderElliptic.center := None;
     CylinderElliptic.height := None;
     CylinderElliptic.startRadius := Some (1, 2);
     CylinderElliptic.startAngle := None;
     CylinderElliptic.endRadius := Some (2, 1);
     CylinderElliptic.endAngle := Some (PI / 4);
     CylinderElliptic.segments := None |}.

(** The least sweep that radius 1 admits with the sample tolerance, and
    [cylinderElliptic({endAngle: leastSweep})]. *)
Definition leastSweep : R :=
  Ratan.acos ((2 * 1 ^ 2 - sampleEPS ^ 2) / (2 * 1 ^ 2)).
Definition leastWedge : CylinderElliptic.options :=
  {| CylinderElliptic.center := None;
     CylinderElliptic.height := None;
     CylinderElliptic.startRadius := None;
     CylinderElliptic.startAngle := None;
     CylinderElliptic.endRadius := None;
     CylinderElliptic.endAngle := Some leastSweep;
     CylinderElliptic.segments := None |}.

(** [cylinderElliptic({endRadius: [0, 1]})] *)
Definition flatEnd : CylinderElliptic.options :=
  {| CylinderElliptic.center := None;
     CylinderElliptic.height := None;
     CylinderElliptic.startRadius := None;
     CylinderElliptic.startAngle := None;
     CylinderElliptic.endRadius := Some (0, 1);
     CylinderElliptic.endAngle := None;
     CylinderElliptic.segments := None |}.

(** The configuration with every field left to its default. *)
Definition defaultEllipsoid : Ellipsoid.options :=
  {| Ellipsoid.center := None;
     Ellipsoid.radius := None;
     Ellipsoid.segments := None;
     Ellipsoid.axes := None |}.

(** The checks of [ellipsoid], all passed. *)
Definition ellipsoidValid (o : Ellipsoid.options) (c r : list R) : Prop :=
  ellipsoidCenter o = JArray c /\ (3 <= List.length c)%nat
  /\ ellipsoidRadius o = JArray r /\ (3 <= List.length r)%nat
  /\ (4 <= ellipsoidSegments o)%Z.

(** The three frame vectors of lines 34 to 36 and the latitude count. *)
Definition xvectorOf (o : Ellipsoid.options) (r : list R) : vec3.t :=
  vec3.scale (nth 0 r 0) (vec3.unit (fst (fst (ellipsoidAxes o)))).
Definition yvectorOf (o : Ellipsoid.options) (r : list R) : vec3.t :=
  vec3.scale (nth 1 r 0) (vec3.unit (snd (fst (ellipsoidAxes o)))).
Definition zvectorOf (o : Ellipsoid.options) (r : list R) : vec3.t :=
  vec3.scale (nth 2 r 0) (vec3.unit (snd (ellipsoidAxes o))).
Definition qsegmentsOf (o : Ellipsoid.options) : Z :=
  Num.round (IZR (ellipsoidSegments o) / 4).

(** The triangles whose first vertex is [apex]: the fan of a cap. *)
Definition fanAround (apex : vec3.t) (polygons : list poly3.t) : list poly3.t :=
  filter (fun p => match poly3.vertices p with
                   | [a; _; _] => if vec3.eq_dec a apex then true else false
                   | _ => false
                   end) polygons.

(** *** More to speak about *)

(** The seven messages that [cylinderElliptic] can throw, in the order of
    its checks, the rotation check last. *)
Definition cylinderMessages : list string :=
  [ "center must be an array"%string;
    "center must contain X, Y and Z values"%string;
    "height must be larger then zero"%string;
    "endRadus and startRadius should be positive"%string;
    "startAngle and endAngle must be positive"%string;
    "segments must be four or more"%string;
    insufficientRotation ].

(** All the vertices of a mesh, polygon after polygon. *)
Definition meshVertices (g : geom3.t) : list vec3.t :=
  flat_map poly3.vertices (geom3.polygons g).

(** A configuration with one field replaced. *)
Definition withStartAngle (angle : R) (o : CylinderElliptic.options)
  : CylinderElliptic.options :=
  {| CylinderElliptic.center := CylinderElliptic.center o;
     CylinderElliptic.height := CylinderElliptic.height o;
     CylinderElliptic.startRadius := CylinderElliptic.startRadius o;
     CylinderElliptic.startAngle := Some angle;
     CylinderElliptic.endRadius := CylinderElliptic.endRadius o;
     CylinderElliptic.endAngle := CylinderElliptic.endAngle o;
     CylinderElliptic.segments := CylinderElliptic.segments o |}.
Definition withEndAngle (angle : R) (o : CylinderElliptic.options)
  : CylinderElliptic.options :=
  {| CylinderElliptic.center := CylinderElliptic.center o;
     CylinderElliptic.height := CylinderElliptic.height o;
     CylinderElliptic.startRadius := CylinderElliptic.startRadius o;
     CylinderElliptic.startAngle := CylinderElliptic.startAngle o;
     CylinderElliptic.endRadius := CylinderElliptic.endRadius o;
     CylinderElliptic.endAngle := Some angle;
     CylinderElliptic.segments := CylinderElliptic.segments o |}.
Definition withCenter (center : list R) (o : CylinderElliptic.options)
  : CylinderElliptic.options :=
  {| CylinderElliptic.center := Some (JArray center);
     CylinderElliptic.height := CylinderElliptic.height o;
     CylinderElliptic.startRadius := CylinderElliptic.startRadius o;
     CylinderElliptic.startAngle := CylinderElliptic.startAngle o;
     CylinderElliptic.endRadius := CylinderElliptic.endRadius o;
     CylinderElliptic.endAngle := CylinderElliptic.endAngle o;
     CylinderElliptic.segments := CylinderElliptic.segments o |}.

(** A mesh moved by a vector: every vertex of every polygon. *)
Definition translatePolygon (d : vec3.t) (p : poly3.t) : poly3.t :=
  poly3.fromPoints (map (fun v => vec3.add v d) (poly3.vertices p)).
Definition translateMesh (d : vec3.t) (g : geom3.t) : geom3.t :=
  geom3.create (map (translatePolygon d) (geom3.polygons g)).

(** The configuration with every field left to its default. *)
Definition defaultCylinder : CylinderElliptic.options :=
  {| CylinderElliptic.center := None;
     CylinderElliptic.height := None;
     CylinderElliptic.startRadius := None;
     CylinderElliptic.startAngle := None;
     CylinderElliptic.endRadius := None;
     CylinderElliptic.endAngle := None;
     CylinderElliptic.segments := None |}.

(** The two angles exchanged. *)
Definition swapAngles (o : CylinderElliptic.options) : CylinderElliptic.options :=
  withStartAngle (endAngleOf o) (withEndAngle (startAngleOf o) o).

(** A point of the ellipse of radii [radius] around [(cx, cy)], whatever
    its height. *)
Definition onEllipse (cx cy : R) (radius : R * R) (p : vec3.t) : Prop :=
  ((vec3.x p - cx) / fst radius) ^ 2 + ((vec3.y p - cy) / snd radius) ^ 2 = 1.

(** A point of one of the two ends of the cylinder of center [c] and height
    [h]: in the plane of the end, and there the center of the end or a point
    of its ellipse. *)
Definition onCylinderEnds (c : list R) (h : R) (startRadius endRadius : R * R)
  (v : vec3.t) : Prop :=
  let cx := nth 0 c 0 in
  let cy := nth 1 c 0 in
  let cz := nth 2 c 0 in
  (vec3.z v = cz - h / 2
   /\ ((vec3.x v = cx /\ vec3.y v = cy) \/ onEllipse cx cy startRadius v))
  \/ (vec3.z v = cz + h / 2
      /\ ((vec3.x v = cx /\ vec3.y v = cy) \/ onEllipse cx cy endRadius v)).

(** The five messages that [ellipsoid] can throw, in the order of its
    checks. *)
Definition ellipsoidMessages : list string :=
  [ "center must be an array"%string;
    "center must contain X, Y and Z values"%string;
    "radius must be an array"%string;
    "radius must contain X, Y and Z values"%string;
    "segments must be four or more"%string ].

(** The fields of a sphere configuration after the defaults. *)
Definition sphereCenter (o : Sphere.options) : jsarray :=
  assign (JArray [0; 0; 0]) (Sphere.center o).
Definition sphereRadius (o : Sphere.options) : R :=
  assign 1 (Sphere.radius o).
Definition sphereSegments (o : Sphere.options) : Z :=
  assign 12%Z (Sphere.segments o).
Definition sphereAxes (o : Sphere.options) : vec3.t * vec3.t * vec3.t :=
  assign defaultAxes (Sphere.axes o).

(** A combination of three vectors with coefficients on the unit sphere,
    from a center. *)
Definition unitCombination (center xvector yvector zvector : vec3.t) (v : vec3.t)
  : Prop :=
  exists a b c : R,
    a ^ 2 + b ^ 2 + c ^ 2 = 1
    /\ v = vec3.add center
             (vec3.add (vec3.add (vec3.scale a xvector) (vec3.scale b yvector))
                       (vec3.scale c zvector)).

(** A point of the ellipsoid of center [c] and semi-axes [r] along the
    global axes. *)
Definition onEllipsoid (c r : list R) (v : vec3.t) : Prop :=
  ((vec3.x v - nth 0 c 0) / nth 0 r 0) ^ 2
  + ((vec3.y v - nth 1 c 0) / nth 1 r 0) ^ 2
  + ((vec3.z v - nth 2 c 0) / nth 2 r 0) ^ 2 = 1.

(** An ellipsoid configuration with its center replaced. *)
Definition withEllipsoidCenter (center : list R) (o : Ellipsoid.options)
  : Ellipsoid.options :=
  {| Ellipsoid.center := Some (JArray center);
     Ellipsoid.radius := Ellipsoid.radius o;
     Ellipsoid.segments := Ellipsoid.segments o;
     Ellipsoid.axes := Ellipsoid.axes o |}.

(** [sphere({})] *)
Definition defaultSphere : Sphere.options :=
  {| Sphere.center := None;
     Sphere.radius := None;
     Sphere.segments := None;
     Sphere.axes := None |}.

(** The fields of a cylinder configuration after the defaults. *)
Definition cylinderCenter (o : Cylinder.options) : jsarray :=
  assign (JArray [0; 0; 0]) (Cylinder.center o).
Definition cylinderHeight (o : Cylinder.options) : R :=
  assign 2 (Cylinder.height o).
Definition cylinderStartRadius (o : Cylinder.options) : R :=
  assign 1 (Cylinder.startRadius o).
Definition cylinderEndRadius (o : Cylinder.options) : R :=
  assign 1 (Cylinder.endRadius o).

(** A point of one of the two ends of a circular cylinder or cone: in the
    plane of the end, on the axis or at the distance of the radius of that
    end from the axis. *)
Definition onCircularEnds (c : list R) (h startRadius endRadius : R) (v : vec3.t)
  : Prop :=
  let dx := vec3.x v - nth 0 c 0 in
  let dy := vec3.y v - nth 1 c 0 in
  (vec3.z v = nth 2 c 0 - h / 2
   /\ (dx ^ 2 + dy ^ 2 = 0 \/ dx ^ 2 + dy ^ 2 = startRadius ^ 2))
  \/ (vec3.z v = nth 2 c 0 + h / 2
      /\ (dx ^ 2 + dy ^ 2 = 0 \/ dx ^ 2 + dy ^ 2 = endRadius ^ 2)).

(** *** The edges of a sweep, by its points

    [a i] and [b i] are the points of the start rim and of the end rim at
    the boundary between slice [i - 1] and slice [i]; [s] and [e] are the
    centers of the two ends. *)
Section SweepEdges.

Variables (s e : vec3.t) (a b : nat -> vec3.t).

(** The edges of slice [i] when the radii are equal: a triangle, a quad, a
    triangle. *)
Definition equalSliceEdges (i : nat) : list (vec3.t * vec3.t) :=
  [ (s, a i); (a i, a (S i)); (a (S i), s);
    (a (S i), a i); (a i, b i); (b i, b (S i)); (b (S i), a (S i));
    (e, b (S i)); (b (S i), b i); (b i, e) ].

(** The edges of slice [i] when the radii differ: four triangles. *)
Definition mixedSliceEdges (i : nat) : list (vec3.t * vec3.t) :=
  [ (s, a i); (a i, a (S i)); (a (S i), s);
    (a i, b i); (b i, a (S i)); (a (S i), a i);
    (e, b (S i)); (b (S i), b i); (b i, e);
    (b i, b (S i)); (b (S i), a (S i)); (a (S i), b i) ].

(** The edges of the four walls of a sweep of [n] slices. *)
Definition wallEdges (n : nat) : list (vec3.t * vec3.t) :=
  [ (s, e); (e, a 0%nat); (a 0%nat, s);
    (a 0%nat, e); (e, b 0%nat); (b 0%nat, a 0%nat);
    (s, a n); (a n, e); (e, s);
    (a n, b n); (b n, e); (e, a n) ].

(** The edges of the first slice that look back, and the edges of the
    slice before boundary [m] that look ahead. *)
Definition leftEdges : list (vec3.t * vec3.t) :=
  [ (s, a 0%nat); (a 0%nat, b 0%nat); (b 0%nat, e) ].
Definition rightEdges (m : nat) : list (vec3.t * vec3.t) :=
  [ (a m, s); (b m, a m); (e, b m) ].

(** What is asked of the edges of the slices: the reverse of an edge of
    slice [i] is in the same slice, or the edge looks ahead and its reverse
    is in the next slice, or it looks back and its reverse is in the slice
    before. *)
Definition pairsLocally (edges : nat -> list (vec3.t * vec3.t)) : Prop :=
  (forall i x y, In (x, y) (edges i) ->
     In (y, x) (edges i)
     \/ (In (y, x) (edges (S i)) /\ In (x, y) (rightEdges (S i)))
     \/ ((i = 0%nat -> In (x, y) (leftEdges))
         /\ (forall j, i = S j -> In (y, x) (edges j))))
  /\ incl (leftEdges) (edges 0%nat)
  /\ (forall m, incl (rightEdges (S m)) (edges m)).

End SweepEdges.

(** ** The edges of a hemisphere

    The patches of one hemisphere of the ellipsoid, over any assignment
    [pt] of points to the longitude and latitude steps. *)

Section HemisphereEdges.

Variables (pt : nat * nat -> vec3.t) (qsegments : Z) (n : nat).

(** The edges of the patch of a cell, its corners taken in order. *)
Definition patchEdges (slice1 slice2 : nat) : list (vec3.t * vec3.t) :=
  edgesOf (poly3.fromPoints (map pt (cellCorners qsegments slice1 slice2))).

(** The edges of the patches of all the cells of [n] longitude steps. *)
Definition hemisphereEdges : list (vec3.t * vec3.t) :=
  flat_map (fun slice1 =>
    flat_map (patchEdges slice1) (seq 1 (Z.to_nat qsegments)))
    (seq 1 n).

End HemisphereEdges.


(** * Properties *)

(** ** Comparisons and rounding *)

Lemma ltb_true (a b : R) : a < b -> Num.ltb a b = true.
Proof. intros H; unfold Num.ltb; destruct (Rlt_dec a b); [reflexivity | lra]. Qed.

Lemma ltb_false (a b : R) : b <= a -> Num.ltb a b = false.
Proof. intros H; unfold Num.ltb; destruct (Rlt_dec a b); [lra | reflexivity]. Qed.

Lemma ltb_iff (a b : R) : Num.ltb a b = true <-> a < b.
Proof.
  unfold Num.ltb; destruct (Rlt_dec a b); split; intros; try assumption;
    try reflexivity; try discriminate; lra.
Qed.

Lemma leb_true (a b : R) : a <= b -> Num.leb a b = true.
Proof. intros H; unfold Num.leb; destruct (Rle_dec a b); [reflexivity | lra]. Qed.

Lemma leb_false (a b : R) : b < a -> Num.leb a b = false.
Proof. intros H; unfold Num.leb; destruct (Rle_dec a b); [lra | reflexivity]. Qed.

Lemma eqb_true (a b : R) : a = b -> Num.eqb a b = true.
Proof.
  intros H; unfold Num.eqb; destruct (Req_dec_T a b); [reflexivity | contradiction].
Qed.

Lemma eqb_false (a b : R) : a <> b -> Num.eqb a b = false.
Proof.
  intros H; unfold Num.eqb; destruct (Req_dec_T a b); [contradiction | reflexivity].
Qed.

Lemma two_pi_bounds : 6 < PI * 2 <= 8.
Proof. pose proof PI2_3_2; pose proof PI_4; lra. Qed.

(** [a % b] leaves a number of [0, b) as it is. *)
Lemma rem_small (a b : R) : 0 <= a < b -> Num.rem a b = a.
Proof.
  intros [H0 Hb]. unfold Num.rem, Num.trunc.
  assert (Hq : 0 <= a / b < 1).
  { split.
    - apply Rmult_le_pos; [assumption | left; apply Rinv_0_lt_compat; lra].
    - apply Rmult_lt_reg_r with b; [lra |].
      unfold Rdiv; rewrite Rmult_assoc, Rinv_l by lra; lra. }
  destruct (Rlt_dec (a / b) 0) as [Hneg | _]; [lra |].
  rewrite (Zfloor_eq 0 (a / b)) by (simpl; lra).
  simpl; ring.
Qed.

(** [b % b] is zero. *)
Lemma rem_self (b : R) : 0 < b -> Num.rem b b = 0.
Proof.
  intros Hb. unfold Num.rem, Num.trunc.
  assert (Hq : b / b = 1) by (field; lra).
  rewrite Hq.
  destruct (Rlt_dec 1 0) as [Hneg | _]; [lra |].
  rewrite (Zfloor_eq 1 1) by (simpl; lra).
  simpl; ring.
Qed.

(** The remainder of a number that is not negative lies in [0, b), and
    differs from the number by a whole count of [b]. *)
Lemma rem_nonneg (a b : R) :
  0 <= a -> 0 < b ->
  exists k : nat, Num.rem a b = a - b * INR k /\ 0 <= Num.rem a b < b.
Proof.
  intros Ha Hb. unfold Num.rem, Num.trunc.
  assert (Hq : 0 <= a / b).
  { apply Rmult_le_pos; [assumption | left; apply Rinv_0_lt_compat; lra]. }
  destruct (Rlt_dec (a / b) 0) as [Hneg | _]; [lra |].
  pose proof (Zfloor_bound (a / b)) as [Hlo Hhi].
  assert (Hk : (0 <= Zfloor (a / b))%Z) by (apply Zfloor_lub; simpl; lra).
  exists (Z.to_nat (Zfloor (a / b))).
  rewrite INR_IZR_INZ, Z2Nat.id by assumption.
  split; [reflexivity |].
  assert (Hab : a = a / b * b) by (field; lra).
  split.
  - assert (b * IZR (Zfloor (a / b)) <= a / b * b) by nra. lra.
  - assert (a / b * b < b * (IZR (Zfloor (a / b)) + 1)) by nra. lra.
Qed.

(** ** The specializations *)

(** C2. [cylinder] with scalar radii is [cylinderElliptic] with each radius
    doubled into a pair and every other field passed on: the same failure
    when that call fails, the same mesh, vertex for vertex, when it returns.
    Fields that are left out take matching defaults on both sides. *)
Theorem cylinder_is_cylinderElliptic (EPS : R) (o : Cylinder.options) :
  cylinder EPS o = cylinderElliptic EPS (ellipticOptions o).
Proof.
  destruct o as [c h r1 a1 r2 a2 s].
  destruct c, h, r1, a1, r2, a2, s; reflexivity.
Qed.

(** C3. [sphere] with a scalar radius is [ellipsoid] with the radius
    repeated three times and center, segments and axes passed on
    unchanged: the same result, vertex for vertex. *)
Theorem sphere_is_ellipsoid (o : Sphere.options) :
  sphere o = ellipsoid (ellipsoidOptions o).
Proof.
  destruct o as [c r s a].
  destruct c, r, s, a; reflexivity.
Qed.

(** ** The frame of the cylinder *)

Lemma vec3_eq (a b c a' b' c' : R) :
  a = a' -> b = b' -> c = c' -> vec3.fromValues a b c = vec3.fromValues a' b' c'.
Proof. intros -> -> ->; reflexivity. Qed.

Lemma ray_of_height (h : R) :
  vec3.subtract (vec3.fromValues 0 0 (h / 2)) (vec3.fromValues 0 0 (- (h / 2)))
  = vec3.fromValues 0 0 h.
Proof. unfold vec3.subtract; simpl; apply vec3_eq; field. Qed.

Lemma axisZ_of_height (h : R) :
  0 < h -> vec3.unit (vec3.fromValues 0 0 h) = vec3.fromValues 0 0 1.
Proof.
  intros Hh. unfold vec3.unit, vec3.length, vec3.dot; simpl.
  replace (0 * 0 + 0 * 0 + h * h) with (h * h) by ring.
  rewrite sqrt_square by lra.
  apply vec3_eq; field; lra.
Qed.

Lemma axisX_of_axisZ :
  vec3.unit (vec3.random (vec3.fromValues 0 0 1)) = cylinderAxisX.
Proof.
  unfold vec3.random; simpl.
  rewrite Rabs_R0, Rabs_R1.
  rewrite !leb_true by lra; simpl.
  unfold vec3.unit, vec3.length, vec3.dot, cylinderAxisX; simpl.
  replace (1 * 1 + 0 * 0 + 0 * 0) with 1 by ring.
  rewrite sqrt_1. apply vec3_eq; field.
Qed.

Lemma axisY_of_axes :
  vec3.unit (vec3.cross cylinderAxisX (vec3.fromValues 0 0 1)) = cylinderAxisY.
Proof.
  unfold vec3.unit, vec3.length, vec3.dot, vec3.cross, cylinderAxisX, cylinderAxisY;
    simpl.
  replace ((0 * 1 - 0 * 0) * (0 * 1 - 0 * 0) + (0 * 0 - 1 * 1) * (0 * 0 - 1 * 1)
           + (1 * 0 - 0 * 0) * (1 * 0 - 0 * 0)) with 1 by ring.
  rewrite sqrt_1. apply vec3_eq; field.
Qed.

(** ** What [cylinderElliptic] returns on a configuration that passes the
    checks of its fields *)

Lemma cylinderElliptic_checked (EPS : R) (o : CylinderElliptic.options) :
  fieldsValid EPS o ->
  exists c, centerOf o = JArray c /\ (3 <= List.length c)%nat /\
    cylinderElliptic EPS o =
      if Num.ltb_nan (rotationOf o)
                     (minAngle EPS (startRadiusOf o) (endRadiusOf o))
      then Throw insufficientRotation
      else
        let h := heightOf o in
        let start := vec3.fromValues 0 0 (- (h / 2)) in
        let end_ := vec3.fromValues 0 0 (h / 2) in
        let ray := vec3.subtract end_ start in
        let axisZ := vec3.unit ray in
        let axisX := vec3.unit (vec3.random axisZ) in
        let axisY := vec3.unit (vec3.cross axisX axisZ) in
        Return (geom3.create
          (sweepPolygons c (startRadiusOf o) (endRadiusOf o) (normalizedStart o)
             (rotationOf o) (slicesOf o) start end_ ray axisX axisY
           ++ wallPolygons c (startRadiusOf o) (endRadiusOf o) (normalizedStart o)
                (rotationOf o) start end_ ray axisX axisY)).
Proof.
  intros [[c [Hc Hlen]] [Hh [Hs0 [Hs1 [He0 [He1 [Hsa [Hea Hseg]]]]]]]].
  exists c; split; [assumption | split; [assumption |]].
  unfold cylinderElliptic.
  unfold rotationOf, normalizedStart, normalizedEnd, slicesOf,
    centerOf, heightOf, startRadiusOf, endRadiusOf, startAngleOf, endAngleOf,
    segmentsOf in *.
  rewrite Hc.
  replace (List.length c <? 3)%nat with false
    by (symmetry; apply Nat.ltb_ge; assumption).
  rewrite (ltb_false _ _ Hh).
  rewrite !leb_false by assumption.
  rewrite !ltb_false by assumption.
  replace (_ <? 4)%Z with false by (symmetry; apply Z.ltb_ge; assumption).
  simpl orb; cbv iota.
  reflexivity.
Qed.

(** With a positive tolerance the height is positive, and the frame is the
    global X axis, the opposite of the global Y axis and the global Z axis. *)
Lemma cylinderElliptic_valid (EPS : R) (o : CylinderElliptic.options) :
  0 < EPS -> fieldsValid EPS o ->
  Num.ltb_nan (rotationOf o) (minAngle EPS (startRadiusOf o) (endRadiusOf o))
    = false ->
  exists c, centerOf o = JArray c /\ (3 <= List.length c)%nat /\
    cylinderElliptic EPS o = Return (geom3.create (sweepOf o c ++ wallsOf o c)).
Proof.
  intros Heps Hv Hrot.
  destruct (cylinderElliptic_checked EPS o Hv) as [c [Hc [Hlen Hrun]]].
  exists c; split; [assumption | split; [assumption |]].
  rewrite Hrun, Hrot. cbv zeta.
  assert (Hh : 0 < heightOf o) by (destruct Hv as [_ [Hh _]]; lra).
  rewrite ray_of_height, (axisZ_of_height _ Hh), axisX_of_axisZ, axisY_of_axes.
  reflexivity.
Qed.

Lemma cylinderElliptic_thin (EPS : R) (o : CylinderElliptic.options) :
  fieldsValid EPS o ->
  Num.ltb_nan (rotationOf o) (minAngle EPS (startRadiusOf o) (endRadiusOf o))
    = true ->
  cylinderElliptic EPS o = Throw insufficientRotation.
Proof.
  intros Hv Hrot.
  destruct (cylinderElliptic_checked EPS o Hv) as [c [_ [_ Hrun]]].
  rewrite Hrun, Hrot; reflexivity.
Qed.

(** The loop pushes the polygons of the slices in order. *)
Lemma fold_left_push {A B : Type} (body : B -> list A) (l : list B) (acc : list A) :
  fold_left (fun polygons i => polygons ++ body i) l acc = acc ++ flat_map body l.
Proof.
  revert acc; induction l as [| b l IH]; intros acc; simpl.
  - rewrite app_nil_r; reflexivity.
  - rewrite IH, <- app_assoc; reflexivity.
Qed.

Lemma sweepPolygons_flat_map c sr er sa rot slices start end_ ray aX aY :
  sweepPolygons c sr er sa rot slices start end_ ray aX aY
  = flat_map (slicePolygons c sr er sa rot slices start end_ ray aX aY)
             (seq 0 (Z.to_nat slices)).
Proof. unfold sweepPolygons; rewrite fold_left_push; reflexivity. Qed.

(** ** The check of the sweep *)

Lemma min4_pos (a b c d : R) :
  0 < a -> 0 < b -> 0 < c -> 0 < d -> 0 < Num.min4 a b c d.
Proof. intros; unfold Num.min4; repeat apply Rmin_glb_lt; assumption. Qed.

Lemma minAngle_formula (EPS : R) (sr er : R * R) :
  0 < fst sr -> 0 < snd sr -> 0 < fst er -> 0 < snd er ->
  minAngle EPS sr er =
    Num.acos ((2 * Num.min4 (fst sr) (snd sr) (fst er) (snd er) ^ 2 - EPS ^ 2)
              / (2 * Num.min4 (fst sr) (snd sr) (fst er) (snd er) ^ 2)).
Proof.
  intros H1 H2 H3 H4. unfold minAngle; cbv zeta.
  pose proof (min4_pos _ _ _ _ H1 H2 H3 H4) as Hm.
  f_equal. field. lra.
Qed.

Lemma ltb_nan_acos (a q : R) :
  Num.ltb_nan a (Num.acos q) = true <-> -1 <= q <= 1 /\ a < Ratan.acos q.
Proof.
  unfold Num.acos.
  destruct (Rle_dec (-1) q) as [Hlo | Hlo];
    [destruct (Rle_dec q 1) as [Hhi | Hhi] |]; simpl.
  - rewrite ltb_iff. split; [intros H; split; [lra | assumption] | intros [_ H]; assumption].
  - split; [discriminate | intros [[_ H] _]; lra].
  - split; [discriminate | intros [[H _] _]; lra].
Qed.


Lemma sampleEPS_bounds : 0 < sampleEPS < 1 / 1000.
Proof. unfold sampleEPS; lra. Qed.

Lemma fieldsValid_defaults (o : CylinderElliptic.options) :
  CylinderElliptic.center o = None ->
  CylinderElliptic.height o = None ->
  0 < fst (startRadiusOf o) -> 0 < snd (startRadiusOf o) ->
  0 < fst (endRadiusOf o) -> 0 < snd (endRadiusOf o) ->
  0 <= startAngleOf o -> 0 <= endAngleOf o -> (4 <= segmentsOf o)%Z ->
  fieldsValid sampleEPS o.
Proof.
  intros Hc Hh; intros. pose proof sampleEPS_bounds.
  unfold fieldsValid, centerOf, heightOf. rewrite Hc, Hh; simpl.
  repeat split; try assumption; try lra.
  exists [0; 0; 0]; split; [reflexivity | simpl; lia].
Qed.

Lemma leastSweep_bounds : 0 < leastSweep < PI.
Proof.
  unfold leastSweep. pose proof sampleEPS_bounds.
  apply acos_bound_lt.
  replace ((2 * 1 ^ 2 - sampleEPS ^ 2) / (2 * 1 ^ 2))
    with (1 - sampleEPS ^ 2 / 2) by field.
  nra.
Qed.

Lemma fieldsValid_leastWedge : fieldsValid sampleEPS leastWedge.
Proof.
  pose proof leastSweep_bounds.
  apply fieldsValid_defaults; try reflexivity;
    unfold startRadiusOf, endRadiusOf, startAngleOf, endAngleOf, segmentsOf;
    simpl; try lra; lia.
Qed.

Lemma rotationOf_leastWedge : rotationOf leastWedge = leastSweep.
Proof.
  pose proof leastSweep_bounds. pose proof two_pi_bounds.
  unfold rotationOf, normalizedStart, normalizedEnd, startAngleOf, endAngleOf;
    simpl.
  rewrite !rem_small by lra.
  unfold sweepRotation, Num.gtb.
  rewrite (ltb_true 0 leastSweep) by lra.
  rewrite (ltb_false leastSweep 0) by lra.
  ring.
Qed.



(** ** The loops of [ellipsoid] *)

Lemma upTo_cons (last : Z) :
  (0 <= last)%Z -> upTo last = 0%nat :: seq 1 (Z.to_nat last).
Proof.
  intros H. unfold upTo.
  replace (Z.to_nat (last + 1)) with (S (Z.to_nat last)) by lia.
  reflexivity.
Qed.

Section EllipsoidLoops.

Variables (center : list R) (segments qsegments : Z).
Variables (xvector yvector zvector : vec3.t).

(** The pitch and the equatorial point as the code computes them. *)
Let pitch (slice2 : nat) : R := 0.5 * PI * INR slice2 / IZR qsegments.
Let cylinderpoint (slice1 : nat) : vec3.t :=
  vec3.add (vec3.scale (cos (PI * 2.0 * INR slice1 / IZR segments)) xvector)
           (vec3.scale (sin (PI * 2.0 * INR slice1 / IZR segments)) yvector).

(** The polygons of the cell of [slice1] and [slice2], from the values that
    the variables hold when the loops reach it. *)
Let cell (slice1 slice2 : nat) : list poly3.t :=
  cellPolygons center qsegments zvector
    (cylinderpoint (slice1 - 1)) (cylinderpoint slice1)
    (cos (pitch (slice2 - 1))) (sin (pitch (slice2 - 1)))
    (cos (pitch slice2)) (sin (pitch slice2)) slice2.

Lemma cell_next (slice1 slice2 : nat) :
  cell (S slice1) (S slice2)
  = cellPolygons center qsegments zvector
      (cylinderpoint slice1) (cylinderpoint (S slice1))
      (cos (pitch slice2)) (sin (pitch slice2))
      (cos (pitch (S slice2))) (sin (pitch (S slice2))) (S slice2).
Proof. unfold cell. cbn [Nat.sub]. rewrite !Nat.sub_0_r. reflexivity. Qed.

(** The inner loop from latitude step [a + 1] on: [prevcospitch] and
    [prevsinpitch] hold the values of step [a]. *)
Lemma forEach_pitchStep (slice1 : nat) (k a : nat) (polygons : list poly3.t) :
  forEach (pitchStep center qsegments zvector
             (Some (cylinderpoint slice1)) (cylinderpoint (S slice1)))
          (seq (S a) k)
          (Some (cos (pitch a)), Some (sin (pitch a)), polygons)
  = Return (Some (cos (pitch (a + k))), Some (sin (pitch (a + k))),
            polygons ++ flat_map (cell (S slice1)) (seq (S a) k)).
Proof.
  revert a polygons; induction k as [| k IH]; intros a polygons.
  - simpl. rewrite Nat.add_0_r, app_nil_r. reflexivity.
  - cbn [seq forEach].
    change (pitchStep center qsegments zvector (Some (cylinderpoint slice1))
              (cylinderpoint (S slice1))
              (Some (cos (pitch a)), Some (sin (pitch a)), polygons) (S a))
      with (Return (A := pitchVars)
              (Some (cos (pitch (S a))), Some (sin (pitch (S a))),
               polygons ++ cellPolygons center qsegments zvector
                 (cylinderpoint slice1) (cylinderpoint (S slice1))
                 (cos (pitch a)) (sin (pitch a))
                 (cos (pitch (S a))) (sin (pitch (S a))) (S a))).
    rewrite <- cell_next. cbn [bind]. rewrite IH.
    replace (S a + k)%nat with (a + S k)%nat by lia.
    cbn [flat_map]. rewrite <- app_assoc. reflexivity.
Qed.

(** One whole run of the inner loop. *)
Lemma forEach_pitchStep_all (slice1 : nat) (polygons : list poly3.t) :
  (0 <= qsegments)%Z ->
  exists c s,
    forEach (pitchStep center qsegments zvector
               (Some (cylinderpoint slice1)) (cylinderpoint (S slice1)))
            (upTo qsegments) (None, None, polygons)
    = Return (c, s, polygons
                    ++ flat_map (cell (S slice1)) (seq 1 (Z.to_nat qsegments))).
Proof.
  intros Hq. rewrite (upTo_cons _ Hq). cbn [forEach].
  change (pitchStep center qsegments zvector (Some (cylinderpoint slice1))
            (cylinderpoint (S slice1)) (None, None, polygons) 0%nat)
    with (Return (A := pitchVars)
            (Some (cos (pitch 0)), Some (sin (pitch 0)), polygons)).
  cbn [bind]. rewrite forEach_pitchStep. eexists; eexists; reflexivity.
Qed.

(** The outer loop from longitude step [a + 1] on: [prevcylinderpoint]
    holds the point of step [a]. *)
Lemma forEach_sliceStep (k a : nat) (polygons : list poly3.t) :
  (0 <= qsegments)%Z ->
  forEach (sliceStep center segments qsegments xvector yvector zvector)
          (seq (S a) k) (Some (cylinderpoint a), polygons)
  = Return (Some (cylinderpoint (a + k)),
            polygons
            ++ flat_map (fun slice1 =>
                 flat_map (cell slice1) (seq 1 (Z.to_nat qsegments)))
                 (seq (S a) k)).
Proof.
  intros Hq. revert a polygons; induction k as [| k IH]; intros a polygons.
  - simpl. rewrite Nat.add_0_r, app_nil_r. reflexivity.
  - cbn [seq forEach].
    destruct (forEach_pitchStep_all a polygons Hq) as [c [s Hinner]].
    change (sliceStep center segments qsegments xvector yvector zvector
              (Some (cylinderpoint a), polygons) (S a))
      with (polygons' <-
              (inner <- forEach (pitchStep center qsegments zvector
                                   (Some (cylinderpoint a)) (cylinderpoint (S a)))
                                (upTo qsegments) (None, None, polygons) ;;
               Return (snd inner)) ;;
            Return (A := sliceVars) (Some (cylinderpoint (S a)), polygons')).
    rewrite Hinner. cbn [bind snd]. rewrite IH.
    replace (S a + k)%nat with (a + S k)%nat by lia.
    cbn [flat_map]. rewrite <- app_assoc. reflexivity.
Qed.

(** The two loops together. *)
Lemma forEach_sliceStep_all :
  (0 <= segments)%Z -> (0 <= qsegments)%Z ->
  exists p,
    forEach (sliceStep center segments qsegments xvector yvector zvector)
            (upTo segments) (None, [])
    = Return (p, flat_map (fun slice1 =>
                   flat_map (cell slice1) (seq 1 (Z.to_nat qsegments)))
                   (seq 1 (Z.to_nat segments))).
Proof.
  intros Hs Hq. rewrite (upTo_cons _ Hs). cbn [forEach].
  change (sliceStep center segments qsegments xvector yvector zvector
            (None, []) 0%nat)
    with (Return (A := sliceVars) (Some (cylinderpoint 0), [])).
  cbn [bind]. rewrite (forEach_sliceStep _ _ _ Hq). eexists; reflexivity.
Qed.

End EllipsoidLoops.

(** ** The cells of the ellipsoid *)

Lemma lower_corner_eq c segments qsegments xv yv zv (i j : nat) :
  vec3.add (vec3.ofArray c)
    (vec3.subtract
       (vec3.scale (cos (0.5 * PI * INR j / IZR qsegments))
          (vec3.add (vec3.scale (cos (PI * 2.0 * INR i / IZR segments)) xv)
                    (vec3.scale (sin (PI * 2.0 * INR i / IZR segments)) yv)))
       (vec3.scale (sin (0.5 * PI * INR j / IZR qsegments)) zv))
  = surfacePoint (vec3.ofArray c) segments qsegments xv yv zv (-1) (i, j).
Proof.
  unfold surfacePoint, cylinderPointAt, pitchAt; cbn [fst snd].
  replace (PI * 2.0 * INR i / IZR segments) with (PI * 2 * INR i / IZR segments)
    by (unfold Rdiv; f_equal; lra).
  replace (0.5 * PI * INR j / IZR qsegments) with (PI / 2 * INR j / IZR qsegments)
    by (unfold Rdiv; f_equal; lra).
  replace (-1 * (PI / 2 * INR j / IZR qsegments))
    with (- (PI / 2 * INR j / IZR qsegments)) by ring.
  rewrite cos_neg, sin_neg.
  unfold vec3.add, vec3.subtract, vec3.scale; simpl.
  apply vec3_eq; ring.
Qed.

Lemma upper_corner_eq c segments qsegments xv yv zv (i j : nat) :
  vec3.add (vec3.ofArray c)
    (vec3.add
       (vec3.scale (cos (0.5 * PI * INR j / IZR qsegments))
          (vec3.add (vec3.scale (cos (PI * 2.0 * INR i / IZR segments)) xv)
                    (vec3.scale (sin (PI * 2.0 * INR i / IZR segments)) yv)))
       (vec3.scale (sin (0.5 * PI * INR j / IZR qsegments)) zv))
  = surfacePoint (vec3.ofArray c) segments qsegments xv yv zv 1 (i, j).
Proof.
  unfold surfacePoint, cylinderPointAt, pitchAt; cbn [fst snd].
  replace (PI * 2.0 * INR i / IZR segments) with (PI * 2 * INR i / IZR segments)
    by (unfold Rdiv; f_equal; lra).
  replace (0.5 * PI * INR j / IZR qsegments) with (PI / 2 * INR j / IZR qsegments)
    by (unfold Rdiv; f_equal; lra).
  rewrite Rmult_1_l. reflexivity.
Qed.

(** The polygons that the loops push for a cell are the two patches. *)
Lemma cell_is_patches c segments qsegments xv yv zv (slice1 slice2 : nat) :
  cellPolygons c qsegments zv
    (vec3.add (vec3.scale (cos (PI * 2.0 * INR (slice1 - 1) / IZR segments)) xv)
              (vec3.scale (sin (PI * 2.0 * INR (slice1 - 1) / IZR segments)) yv))
    (vec3.add (vec3.scale (cos (PI * 2.0 * INR slice1 / IZR segments)) xv)
              (vec3.scale (sin (PI * 2.0 * INR slice1 / IZR segments)) yv))
    (cos (0.5 * PI * INR (slice2 - 1) / IZR qsegments))
    (sin (0.5 * PI * INR (slice2 - 1) / IZR qsegments))
    (cos (0.5 * PI * INR slice2 / IZR qsegments))
    (sin (0.5 * PI * INR slice2 / IZR qsegments)) slice2
  = [ lowerPatch (vec3.ofArray c) segments qsegments xv yv zv slice1 slice2;
      upperPatch (vec3.ofArray c) segments qsegments xv yv zv slice1 slice2 ].
Proof.
  unfold cellPolygons, lowerPatch, upperPatch, cellCorners. cbv zeta.
  rewrite !lower_corner_eq, !upper_corner_eq.
  destruct (Z.of_nat slice2 <? qsegments)%Z; reflexivity.
Qed.

Lemma qsegments_pos (segments : Z) :
  (4 <= segments)%Z -> (1 <= Num.round (IZR segments / 4))%Z.
Proof.
  intros H. unfold Num.round. apply Zfloor_lub.
  apply IZR_le in H. lra.
Qed.

(** What [ellipsoid] returns once its checks are passed: the two loops run
    to their end without reading an unassigned variable, and push the two
    patches of every cell. *)
Lemma ellipsoid_checked (o : Ellipsoid.options) (c r : list R) :
  ellipsoidValid o c r ->
  ellipsoid o =
    Return (geom3.create
      (allPatches (vec3.ofArray c) (ellipsoidSegments o) (qsegmentsOf o)
                  (xvectorOf o r) (yvectorOf o r) (zvectorOf o r))).
Proof.
  intros [Hc [Hlc [Hr [Hlr Hseg]]]].
  unfold ellipsoid.
  unfold ellipsoidCenter, ellipsoidRadius in Hc, Hr.
  rewrite Hc, Hr.
  replace (List.length c <? 3)%nat with false
    by (symmetry; apply Nat.ltb_ge; assumption).
  replace (List.length r <? 3)%nat with false
    by (symmetry; apply Nat.ltb_ge; assumption).
  fold (ellipsoidSegments o) (ellipsoidAxes o).
  replace (ellipsoidSegments o <? 4)%Z with false
    by (symmetry; apply Z.ltb_ge; assumption).
  cbv zeta.
  fold (xvectorOf o r) (yvectorOf o r) (zvectorOf o r) (qsegmentsOf o).
  pose proof (qsegments_pos _ Hseg) as Hq. fold (qsegmentsOf o) in Hq.
  destruct (forEach_sliceStep_all c (ellipsoidSegments o) (qsegmentsOf o)
              (xvectorOf o r) (yvectorOf o r) (zvectorOf o r))
    as [p Hp]; [lia | lia |].
  cbv zeta in Hp. rewrite Hp. cbn [bind snd].
  do 2 f_equal. unfold allPatches.
  apply flat_map_ext; intros slice1.
  apply flat_map_ext; intros slice2.
  apply cell_is_patches.
Qed.

Lemma cellCorners_length (qsegments : Z) (slice1 slice2 : nat) :
  (1 <= slice2 <= Z.to_nat qsegments)%nat ->
  List.length (cellCorners qsegments slice1 slice2)
  = (if (slice2 =? Z.to_nat qsegments)%nat then 3 else 4)%nat.
Proof.
  intros H. unfold cellCorners.
  destruct (Z.of_nat slice2 <? qsegments)%Z eqn:Hlt;
    destruct (slice2 =? Z.to_nat qsegments)%nat eqn:Heq; try reflexivity.
  - apply Z.ltb_lt in Hlt. apply Nat.eqb_eq in Heq. lia.
  - apply Z.ltb_ge in Hlt. apply Nat.eqb_neq in Heq. lia.
Qed.

Lemma flat_map_length_const {A B : Type} (f : A -> list B) (l : list A) (n : nat) :
  (forall a, List.length (f a) = n) ->
  List.length (flat_map f l) = (List.length l * n)%nat.
Proof.
  intros H. induction l as [| a l IH]; cbn [flat_map List.length]; [reflexivity |].
  rewrite length_app, H, IH. lia.
Qed.

Lemma allPatches_length center segments qsegments xv yv zv :
  List.length (allPatches center segments qsegments xv yv zv)
  = (2 * (Z.to_nat segments * Z.to_nat qsegments))%nat.
Proof.
  unfold allPatches.
  rewrite (flat_map_length_const _ _ (Z.to_nat qsegments * 2)%nat).
  - rewrite length_seq. lia.
  - intros slice1. rewrite (flat_map_length_const _ _ 2%nat).
    + rewrite length_seq. reflexivity.
    + intros slice2. reflexivity.
Qed.

(** C8. For every configuration that passes the checks of [ellipsoid], the
    mesh is made of the cells of the longitude steps 1 to [segments] and the
    latitude steps 1 to [qsegments], each cell giving exactly two polygons,
    one per hemisphere: the corners of the cell taken at the pitch with its
    sign flipped, and at the pitch itself.  Each of the two has four
    vertices, and three in the last latitude row, where the far corner is
    left out; the vertices of the lower patch follow the corners in order,
    those of the upper patch in the reverse order. *)
Theorem ellipsoid_cell_patches (o : Ellipsoid.options) (c r : list R) :
  ellipsoidValid o c r ->
  let center := vec3.ofArray c in
  let segments := ellipsoidSegments o in
  let qsegments := qsegmentsOf o in
  let surface := surfacePoint center segments qsegments
                   (xvectorOf o r) (yvectorOf o r) (zvectorOf o r) in
  let lower := lowerPatch center segments qsegments
                 (xvectorOf o r) (yvectorOf o r) (zvectorOf o r) in
  let upper := upperPatch center segments qsegments
                 (xvectorOf o r) (yvectorOf o r) (zvectorOf o r) in
  ellipsoid o =
    Return (geom3.create
      (flat_map (fun slice1 =>
         flat_map (fun slice2 => [lower slice1 slice2; upper slice1 slice2])
                  (seq 1 (Z.to_nat qsegments)))
         (seq 1 (Z.to_nat segments))))
  /\ (forall g, ellipsoid o = Return g ->
        List.length (geom3.polygons g)
        = (2 * (Z.to_nat segments * Z.to_nat qsegments))%nat)
  /\ (forall slice1 slice2 : nat,
        (1 <= slice2 <= Z.to_nat qsegments)%nat ->
        List.length (poly3.vertices (lower slice1 slice2))
          = (if (slice2 =? Z.to_nat qsegments)%nat then 3 else 4)%nat
        /\ List.length (poly3.vertices (upper slice1 slice2))
          = (if (slice2 =? Z.to_nat qsegments)%nat then 3 else 4)%nat
        /\ poly3.vertices (lower slice1 slice2)
          = map (surface (-1)) (cellCorners qsegments slice1 slice2)
        /\ rev (poly3.vertices (upper slice1 slice2))
          = map (surface 1) (cellCorners qsegments slice1 slice2)).
Proof.
  intros Hv center segments qsegments surface lower upper.
  pose proof (ellipsoid_checked o c r Hv) as Hrun.
  split; [exact Hrun |]. split.
  - intros g Hg. rewrite Hrun in Hg. injection Hg as <-.
    apply allPatches_length.
  - intros slice1 slice2 Hrow.
    unfold lower, upper, lowerPatch, upperPatch, surface; cbn [poly3.vertices poly3.fromPoints].
    rewrite length_rev, !length_map, rev_involutive.
    rewrite (cellCorners_length _ _ _ Hrow).
    repeat split; reflexivity.
Qed.

Lemma ellipsoidValid_default :
  ellipsoidValid defaultEllipsoid [0; 0; 0] [1; 1; 1].
Proof.
  unfold ellipsoidValid, ellipsoidCenter, ellipsoidRadius, ellipsoidSegments.
  cbn [defaultEllipsoid Ellipsoid.center Ellipsoid.radius Ellipsoid.segments
       assign List.length].
  split; [reflexivity | split; [lia | split; [reflexivity | split; lia]]].
Qed.

Lemma ellipsoid_cell_patches_witness :
  ellipsoidValid defaultEllipsoid [0; 0; 0] [1; 1; 1]
  /\ forall g, ellipsoid defaultEllipsoid = Return g ->
       List.length (geom3.polygons g)
       = (2 * (Z.to_nat (ellipsoidSegments defaultEllipsoid)
               * Z.to_nat (qsegmentsOf defaultEllipsoid)))%nat.
Proof.
  split; [exact ellipsoidValid_default |].
  apply (ellipsoid_cell_patches defaultEllipsoid [0; 0; 0] [1; 1; 1]
           ellipsoidValid_default).
Defined.

(** ** The checks of [ellipsoid] *)

Lemma ellipsoid_throws (o : Ellipsoid.options) (message : string) :
  ellipsoid o = Throw message ->
  In message [ "center must be an array"%string;
               "center must contain X, Y and Z values"%string;
               "radius must be an array"%string;
               "radius must contain X, Y and Z values"%string;
               "segments must be four or more"%string ].
Proof.
  intros Hthrow.
  destruct (ellipsoidCenter o) as [| c] eqn:Hc.
  { unfold ellipsoid in Hthrow. fold (ellipsoidCenter o) in Hthrow.
    rewrite Hc in Hthrow. injection Hthrow as <-. simpl; tauto. }
  destruct (List.length c <? 3)%nat eqn:Hlc.
  { unfold ellipsoid in Hthrow. fold (ellipsoidCenter o) in Hthrow.
    rewrite Hc, Hlc in Hthrow. injection Hthrow as <-. simpl; tauto. }
  destruct (ellipsoidRadius o) as [| r] eqn:Hr.
  { unfold ellipsoid in Hthrow.
    fold (ellipsoidCenter o) (ellipsoidRadius o) in Hthrow.
    rewrite Hc, Hlc, Hr in Hthrow. injection Hthrow as <-. simpl; tauto. }
  destruct (List.length r <? 3)%nat eqn:Hlr.
  { unfold ellipsoid in Hthrow.
    fold (ellipsoidCenter o) (ellipsoidRadius o) in Hthrow.
    rewrite Hc, Hlc, Hr, Hlr in Hthrow. injection Hthrow as <-. simpl; tauto. }
  destruct (ellipsoidSegments o <? 4)%Z eqn:Hs.
  { unfold ellipsoid in Hthrow.
    fold (ellipsoidCenter o) (ellipsoidRadius o) (ellipsoidSegments o) in Hthrow.
    rewrite Hc, Hlc, Hr, Hlr, Hs in Hthrow. injection Hthrow as <-. simpl; tauto. }
  assert (Hv : ellipsoidValid o c r).
  { unfold ellipsoidValid. apply Nat.ltb_ge in Hlc, Hlr. apply Z.ltb_ge in Hs.
    repeat split; assumption. }
  rewrite (ellipsoid_checked o c r Hv) in Hthrow. discriminate.
Qed.

(** C10. [ellipsoid], and [sphere] through it, never checks [axes]: when
    center and radius are arrays of at least three components and segments
    is at least 4, the call returns a mesh whatever the axes are, zero
    vectors and frames that are not orthogonal included; and no error of
    either generator, on any input, names axes. *)
Theorem ellipsoid_never_checks_axes :
  (forall (c r : list R) (segments : Z) (axes : option (vec3.t * vec3.t * vec3.t)),
     (3 <= List.length c)%nat -> (3 <= List.length r)%nat -> (4 <= segments)%Z ->
     exists g,
       ellipsoid {| Ellipsoid.center := Some (JArray c);
                    Ellipsoid.radius := Some (JArray r);
                    Ellipsoid.segments := Some segments;
                    Ellipsoid.axes := axes |} = Return g)
  /\ (forall o message, ellipsoid o = Throw message -> names "axes" message = false)
  /\ (forall o message, sphere o = Throw message -> names "axes" message = false).
Proof.
  assert (Hnames : forall o message,
            ellipsoid o = Throw message -> names "axes" message = false).
  { intros o message Hthrow. apply ellipsoid_throws in Hthrow.
    simpl in Hthrow.
    repeat (destruct Hthrow as [<- | Hthrow]; [vm_compute; reflexivity |]).
    contradiction. }
  split; [| split].
  - intros c r segments axes Hc Hr Hs. eexists.
    apply (ellipsoid_checked _ c r).
    unfold ellipsoidValid; simpl. repeat split; assumption.
  - exact Hnames.
  - intros o message Hthrow. unfold sphere in Hthrow.
    apply Hnames in Hthrow. exact Hthrow.
Qed.

Lemma ellipsoid_never_checks_axes_witness :
  (exists g,
     ellipsoid {| Ellipsoid.center := Some (JArray [0; 0; 0]);
                  Ellipsoid.radius := Some (JArray [1; 1; 1]);
                  Ellipsoid.segments := Some 4%Z;
                  Ellipsoid.axes :=
                    Some (vec3.fromValues 0 0 0, vec3.fromValues 1 1 0,
                          vec3.fromValues 1 1 0) |} = Return g)
  /\ names "axes" "center must be an array" = false.
Proof.
  destruct ellipsoid_never_checks_axes as [Hruns [Hnames _]].
  split.
  - apply Hruns; simpl; lia.
  - apply (Hnames {| Ellipsoid.center := Some NotArray;
                     Ellipsoid.radius := None;
                     Ellipsoid.segments := None;
                     Ellipsoid.axes := None |}).
    reflexivity.
Defined.

(** ** The checks of [cylinderElliptic], in their order *)

Lemma height_error (EPS : R) (o : CylinderElliptic.options) (c : list R) :
  centerOf o = JArray c -> (3 <= List.length c)%nat ->
  heightOf o < EPS * 2 ->
  cylinderElliptic EPS o = Throw "height must be larger then zero"
  /\ names "height" "height must be larger then zero" = true.
Proof.
  intros Hc Hlen Hh. split; [| reflexivity].
  unfold cylinderElliptic. unfold centerOf, heightOf in *.
  rewrite Hc.
  replace (List.length c <? 3)%nat with false
    by (symmetry; apply Nat.ltb_ge; assumption).
  rewrite (ltb_true _ _ Hh). reflexivity.
Qed.

Lemma radius_error (EPS : R) (o : CylinderElliptic.options) (c : list R) :
  centerOf o = JArray c -> (3 <= List.length c)%nat ->
  EPS * 2 <= heightOf o ->
  fst (endRadiusOf o) <= 0 \/ fst (startRadiusOf o) <= 0
  \/ snd (endRadiusOf o) <= 0 \/ snd (startRadiusOf o) <= 0 ->
  cylinderElliptic EPS o = Throw "endRadus and startRadius should be positive"
  /\ names "startRadius" "endRadus and startRadius should be positive" = true.
Proof.
  intros Hc Hlen Hh Hr. split; [| reflexivity].
  unfold cylinderElliptic.
  unfold centerOf, heightOf, startRadiusOf, endRadiusOf in *.
  rewrite Hc.
  replace (List.length c <? 3)%nat with false
    by (symmetry; apply Nat.ltb_ge; assumption).
  rewrite (ltb_false _ _ Hh).
  match goal with
  | |- (if ?b then _ else _) = _ => assert (Hb : b = true)
  end.
  { rewrite !orb_true_iff.
    destruct Hr as [H | [H | [H | H]]]; rewrite <- (leb_true _ _ H); tauto. }
  rewrite Hb. reflexivity.
Qed.

Lemma segments_error (EPS : R) (o : CylinderElliptic.options) (c : list R) :
  centerOf o = JArray c -> (3 <= List.length c)%nat ->
  EPS * 2 <= heightOf o ->
  0 < fst (startRadiusOf o) -> 0 < snd (startRadiusOf o) ->
  0 < fst (endRadiusOf o) -> 0 < snd (endRadiusOf o) ->
  0 <= startAngleOf o -> 0 <= endAngleOf o ->
  (segmentsOf o < 4)%Z ->
  cylinderElliptic EPS o = Throw "segments must be four or more"
  /\ names "segments" "segments must be four or more" = true.
Proof.
  intros Hc Hlen Hh Hs0 Hs1 He0 He1 Hsa Hea Hseg. split; [| reflexivity].
  unfold cylinderElliptic.
  unfold centerOf, heightOf, startRadiusOf, endRadiusOf, startAngleOf,
    endAngleOf, segmentsOf in *.
  rewrite Hc.
  replace (List.length c <? 3)%nat with false
    by (symmetry; apply Nat.ltb_ge; assumption).
  rewrite (ltb_false _ _ Hh).
  rewrite !leb_false by assumption.
  rewrite !ltb_false by assumption.
  replace (_ <? 4)%Z with true by (symmetry; apply Z.ltb_lt; assumption).
  reflexivity.
Qed.

(** C7, at [cylinderElliptic({endRadius: [0, 1]})].  Every other field is
    valid, and the start radius is positive; the failure is the one shared
    radius error, whose message spells the end radius "endRadus": the field
    endRadius, the one that is violated, is not named. *)
Theorem end_radius_error_misses_field :
  fst (endRadiusOf flatEnd) <= 0
  /\ 0 < fst (startRadiusOf flatEnd) /\ 0 < snd (startRadiusOf flatEnd)
  /\ cylinderElliptic sampleEPS flatEnd
     = Throw "endRadus and startRadius should be positive"
  /\ names "endRadius" "endRadus and startRadius should be positive" = false.
Proof.
  pose proof sampleEPS_bounds.
  unfold endRadiusOf, startRadiusOf; simpl.
  split; [lra | split; [lra | split; [lra | split; [| reflexivity]]]].
  apply (radius_error sampleEPS flatEnd [0; 0; 0]).
  - reflexivity.
  - simpl; lia.
  - unfold heightOf; simpl; lra.
  - left. unfold endRadiusOf; simpl; lra.
Qed.

(** ** The polygons of a sweep *)

Lemma filter_flat_map {A B : Type} (keep : B -> bool) (f : A -> list B) (l : list A) :
  filter keep (flat_map f l) = flat_map (fun a => filter keep (f a)) l.
Proof.
  induction l as [| a l IH]; cbn [flat_map]; [reflexivity |].
  rewrite filter_app, IH. reflexivity.
Qed.

Section SlicePolygons.

Variables (center : list R) (startRadius endRadius : R * R).
Variables (startAngle rotation : R) (slices : Z).
Variables (start end_ ray axisX axisY : vec3.t).

Let at_ (stack slice : R) (radius : R * R) : vec3.t :=
  vec3.add (point startAngle rotation start ray axisX axisY stack slice radius)
           (vec3.ofArray center).
Let slice (i : nat) : list poly3.t :=
  slicePolygons center startRadius endRadius startAngle rotation slices
                start end_ ray axisX axisY i.

(** Equal radii: a triangle of the start cap, a side quad and a triangle of
    the end cap. *)
Lemma slicePolygons_equal_radii (i : nat) :
  fst endRadius = fst startRadius -> snd endRadius = snd startRadius ->
  slice i =
    [ poly3.fromPoints
        [ vec3.add start (vec3.ofArray center);
          at_ 0 (INR i / IZR slices) endRadius;
          at_ 0 ((INR i + 1) / IZR slices) endRadius ];
      poly3.fromPoints
        [ at_ 0 ((INR i + 1) / IZR slices) endRadius;
          at_ 0 (INR i / IZR slices) endRadius;
          at_ 1 (INR i / IZR slices) endRadius;
          at_ 1 ((INR i + 1) / IZR slices) endRadius ];
      poly3.fromPoints
        [ vec3.add end_ (vec3.ofArray center);
          at_ 1 ((INR i + 1) / IZR slices) endRadius;
          at_ 1 (INR i / IZR slices) endRadius ] ].
Proof.
  intros H0 H1. unfold slice, slicePolygons.
  rewrite (eqb_true _ _ H0), (eqb_true _ _ H1). reflexivity.
Qed.

(** Different radii, both positive: two triangles at the start and two at
    the end. *)
Lemma slicePolygons_different_radii (i : nat) :
  fst endRadius <> fst startRadius \/ snd endRadius <> snd startRadius ->
  0 < fst startRadius -> 0 < fst endRadius ->
  slice i =
    [ poly3.fromPoints
        [ vec3.add start (vec3.ofArray center);
          at_ 0 (INR i / IZR slices) startRadius;
          at_ 0 ((INR i + 1) / IZR slices) startRadius ];
      poly3.fromPoints
        [ at_ 0 (INR i / IZR slices) startRadius;
          at_ 1 (INR i / IZR slices) endRadius;
          at_ 0 ((INR i + 1) / IZR slices) startRadius ];
      poly3.fromPoints
        [ vec3.add end_ (vec3.ofArray center);
          at_ 1 ((INR i + 1) / IZR slices) endRadius;
          at_ 1 (INR i / IZR slices) endRadius ];
      poly3.fromPoints
        [ at_ 1 (INR i / IZR slices) endRadius;
          at_ 1 ((INR i + 1) / IZR slices) endRadius;
          at_ 0 ((INR i + 1) / IZR slices) startRadius ] ].
Proof.
  intros Hne Hs He. unfold slice, slicePolygons.
  assert (Hb : Num.eqb (fst endRadius) (fst startRadius)
               && Num.eqb (snd endRadius) (snd startRadius) = false).
  { destruct Hne as [H | H]; rewrite (eqb_false _ _ H);
      [reflexivity | apply andb_false_r]. }
  rewrite Hb. unfold Num.gtb. rewrite !ltb_true by assumption. reflexivity.
Qed.

(** The number of polygons that the loop pushes. *)
Lemma sweepPolygons_length :
  0 < fst startRadius -> 0 < fst endRadius ->
  List.length (sweepPolygons center startRadius endRadius startAngle rotation
                 slices start end_ ray axisX axisY)
  = (Z.to_nat slices
     * (if Num.eqb (fst endRadius) (fst startRadius)
           && Num.eqb (snd endRadius) (snd startRadius) then 3 else 4))%nat.
Proof.
  intros Hs He. rewrite sweepPolygons_flat_map.
  rewrite (flat_map_length_const _ _
             (if Num.eqb (fst endRadius) (fst startRadius)
                 && Num.eqb (snd endRadius) (snd startRadius) then 3 else 4)%nat).
  - rewrite length_seq. reflexivity.
  - intros i. unfold slicePolygons.
    destruct (Num.eqb (fst endRadius) (fst startRadius)
              && Num.eqb (snd endRadius) (snd startRadius)); [reflexivity |].
    unfold Num.gtb. rewrite !ltb_true by assumption. reflexivity.
Qed.

(** With equal radii: one quad per slice, and one triangle of each fan. *)
Lemma sweepPolygons_equal_radii_shape :
  fst endRadius = fst startRadius -> snd endRadius = snd startRadius ->
  vec3.add start (vec3.ofArray center) <> vec3.add end_ (vec3.ofArray center) ->
  let polygons := sweepPolygons center startRadius endRadius startAngle rotation
                    slices start end_ ray axisX axisY in
  List.length polygons = (Z.to_nat slices * 3)%nat
  /\ List.length (withVertices 4 polygons) = Z.to_nat slices
  /\ List.length (withVertices 3 polygons) = (Z.to_nat slices * 2)%nat
  /\ List.length (fanAround (vec3.add start (vec3.ofArray center)) polygons)
     = Z.to_nat slices
  /\ List.length (fanAround (vec3.add end_ (vec3.ofArray center)) polygons)
     = Z.to_nat slices.
Proof.
  intros H0 H1 Hne polygons. unfold polygons.
  rewrite sweepPolygons_flat_map.
  rewrite (flat_map_ext _ _ (fun i => slicePolygons_equal_radii i H0 H1)).
  unfold withVertices, fanAround. rewrite !filter_flat_map.
  split; [| split; [| split; [| split]]].
  - rewrite (flat_map_length_const _ _ 3%nat) by (intros; reflexivity).
    rewrite length_seq; reflexivity.
  - rewrite (flat_map_length_const _ _ 1%nat) by (intros; reflexivity).
    rewrite length_seq; lia.
  - rewrite (flat_map_length_const _ _ 2%nat) by (intros; reflexivity).
    rewrite length_seq; reflexivity.
  - rewrite (flat_map_length_const _ _ 1%nat).
    + rewrite length_seq; lia.
    + intros i. cbn [filter poly3.vertices poly3.fromPoints].
      destruct (vec3.eq_dec (vec3.add start (vec3.ofArray center))
                            (vec3.add start (vec3.ofArray center)));
        [| contradiction].
      destruct (vec3.eq_dec (vec3.add end_ (vec3.ofArray center))
                            (vec3.add start (vec3.ofArray center)));
        [congruence | reflexivity].
  - rewrite (flat_map_length_const _ _ 1%nat).
    + rewrite length_seq; lia.
    + intros i. cbn [filter poly3.vertices poly3.fromPoints].
      destruct (vec3.eq_dec (vec3.add end_ (vec3.ofArray center))
                            (vec3.add end_ (vec3.ofArray center)));
        [| contradiction].
      destruct (vec3.eq_dec (vec3.add start (vec3.ofArray center))
                            (vec3.add end_ (vec3.ofArray center)));
        [congruence | reflexivity].
Qed.

End SlicePolygons.

(** ** Full turns *)

Lemma full_turn_passes (EPS : R) (sr er : R * R) :
  Num.ltb_nan (PI * 2) (minAngle EPS sr er) = false.
Proof.
  unfold minAngle, Num.acos; cbv zeta.
  repeat match goal with |- context [Rle_dec ?a ?b] => destruct (Rle_dec a b) end;
    try reflexivity.
  cbn [Num.ltb_nan]. apply ltb_false.
  match goal with |- Ratan.acos ?q <= _ => pose proof (acos_bound q) end.
  pose proof PI_RGT_0. lra.
Qed.

Lemma rotation_full (o : CylinderElliptic.options) :
  normalizedStart o = normalizedEnd o -> rotationOf o = PI * 2.
Proof.
  intros H. unfold rotationOf, sweepRotation, Num.gtb. rewrite H.
  rewrite !ltb_false by lra. reflexivity.
Qed.

Lemma slices_full (o : CylinderElliptic.options) :
  rotationOf o = PI * 2 -> slicesOf o = segmentsOf o.
Proof.
  intros H. unfold slicesOf, Num.floor. rewrite H.
  pose proof two_pi_bounds.
  replace (PI * 2 / (PI * 2)) with 1 by (field; lra).
  apply Zfloor_eq. lra.
Qed.

Lemma walls_full c sr er sa rot start end_ ray aX aY :
  rot = PI * 2 -> wallPolygons c sr er sa rot start end_ ray aX aY = [].
Proof. intros ->. unfold wallPolygons. rewrite ltb_false by lra. reflexivity. Qed.

(** ** [cylinder({height: 2, startRadius: 1, endRadius: 1, segments: 4})] *)

Lemma four_segment_cylinder_shape (EPS : R) :
  EPS <= 1 ->
  exists g,
    cylinder EPS fourSegmentCylinder = Return g
    /\ List.length (geom3.polygons g) = 12%nat
    /\ List.length (withVertices 4 (geom3.polygons g)) = 4%nat
    /\ List.length (withVertices 3 (geom3.polygons g)) = 8%nat
    /\ List.length (fanAround (vec3.fromValues 0 0 (-1)) (geom3.polygons g)) = 4%nat
    /\ List.length (fanAround (vec3.fromValues 0 0 1) (geom3.polygons g)) = 4%nat.
Proof.
  intros Heps. pose proof two_pi_bounds as Hpi.
  unfold cylinder, fourSegmentCylinder.
  cbn [assign Cylinder.center Cylinder.height Cylinder.startRadius
       Cylinder.startAngle Cylinder.endRadius Cylinder.endAngle Cylinder.segments].
  match goal with |- context [cylinderElliptic EPS ?o'] => set (o := o') end.
  assert (Hv : fieldsValid EPS o).
  { unfold fieldsValid, centerOf, heightOf, startRadiusOf, endRadiusOf,
      startAngleOf, endAngleOf, segmentsOf; simpl.
    split; [exists [0; 0; 0]; split; [reflexivity | simpl; lia] |].
    repeat split; try lra; lia. }
  assert (Hrot : rotationOf o = PI * 2).
  { apply rotation_full.
    unfold normalizedStart, normalizedEnd, startAngleOf, endAngleOf; simpl.
    rewrite rem_small, rem_self by lra. reflexivity. }
  destruct (cylinderElliptic_checked EPS o Hv) as [c [Hc [_ Hrun]]].
  injection Hc as <-.
  rewrite Hrot, full_turn_passes in Hrun. cbv zeta in Hrun.
  rewrite walls_full, app_nil_r, <- Hrot, (slices_full o Hrot) in Hrun
    by reflexivity.
  eexists; split; [exact Hrun |].
  cbn [geom3.polygons geom3.create].
  assert (Hstart : vec3.add (vec3.fromValues 0 0 (- (heightOf o / 2)))
                     (vec3.ofArray [0; 0; 0]) = vec3.fromValues 0 0 (-1)).
  { unfold vec3.add, vec3.ofArray, heightOf; simpl. apply vec3_eq; lra. }
  assert (Hend : vec3.add (vec3.fromValues 0 0 (heightOf o / 2))
                   (vec3.ofArray [0; 0; 0]) = vec3.fromValues 0 0 1).
  { unfold vec3.add, vec3.ofArray, heightOf; simpl. apply vec3_eq; lra. }
  rewrite <- Hstart, <- Hend.
  match goal with
  | |- context [sweepPolygons ?c ?sr ?er ?sa ?rot ?n ?s ?e ?ray ?aX ?aY] =>
      pose proof (sweepPolygons_equal_radii_shape c sr er sa rot n s e ray aX aY)
        as Hshape
  end.
  cbv zeta in Hshape.
  replace (Z.to_nat (segmentsOf o)) with 4%nat in Hshape by reflexivity.
  apply Hshape; try reflexivity.
  rewrite Hstart, Hend. intros Heq. injection Heq. lra.
Qed.

(** C5, as the code has it.  The mesh has exactly 12 polygons: the 4 side
    quads, and 8 cap triangles, a fan of 4 around the centre of each end;
    no cap is a single 4-gon. *)
Theorem four_segment_cylinder (EPS : R) :
  EPS <= 1 ->
  exists g,
    cylinder EPS fourSegmentCylinder = Return g
    /\ List.length (geom3.polygons g) = 12%nat
    /\ List.length (withVertices 4 (geom3.polygons g)) = 4%nat
    /\ List.length (withVertices 3 (geom3.polygons g)) = 8%nat
    /\ List.length (fanAround (vec3.fromValues 0 0 (-1)) (geom3.polygons g)) = 4%nat
    /\ List.length (fanAround (vec3.fromValues 0 0 1) (geom3.polygons g)) = 4%nat.
Proof. exact (four_segment_cylinder_shape EPS). Qed.

Lemma four_segment_cylinder_witness :
  sampleEPS <= 1
  /\ exists g,
       cylinder sampleEPS fourSegmentCylinder = Return g
       /\ List.length (geom3.polygons g) = 12%nat.
Proof.
  assert (H : sampleEPS <= 1) by (unfold sampleEPS; lra).
  split; [exact H |].
  destruct (four_segment_cylinder sampleEPS H) as [g [Hg [Hn _]]].
  exists g; split; assumption.
Defined.

(** C5, as stated: the mesh does not have 6 polygons. *)
Lemma four_segment_cylinder_not_six :
  ~ exists g,
      cylinder sampleEPS fourSegmentCylinder = Return g
      /\ List.length (geom3.polygons g) = 6%nat.
Proof.
  intros [g [Hg Hsix]].
  destruct (four_segment_cylinder_shape sampleEPS) as [g' [Hg' [Hn _]]].
  { unfold sampleEPS; lra. }
  rewrite Hg in Hg'. injection Hg' as <-. rewrite Hsix in Hn. discriminate.
Qed.

(** ** Partial sweeps *)

(** The reduced angles of a configuration that passes the checks. *)
Lemma normalized_bounds (a : R) :
  0 <= a ->
  0 <= Num.rem a (PI * 2) < PI * 2
  /\ cos (Num.rem a (PI * 2)) = cos a /\ sin (Num.rem a (PI * 2)) = sin a.
Proof.
  intros Ha. pose proof two_pi_bounds as Hpi.
  destruct (rem_nonneg a (PI * 2) Ha) as [k [Hk Hb]]; [lra |].
  split; [exact Hb |].
  replace a with (Num.rem a (PI * 2) + 2 * INR k * PI) at 2 4 by (rewrite Hk; ring).
  rewrite cos_period, sin_period. split; reflexivity.
Qed.

Lemma rotation_partial (o : CylinderElliptic.options) :
  0 <= startAngleOf o -> 0 <= endAngleOf o ->
  normalizedStart o <> normalizedEnd o ->
  0 < rotationOf o < PI * 2.
Proof.
  intros Hsa Hea Hne.
  destruct (normalized_bounds _ Hsa) as [Hs _].
  destruct (normalized_bounds _ Hea) as [He _].
  fold (normalizedStart o) in Hs. fold (normalizedEnd o) in He.
  unfold rotationOf, sweepRotation, Num.gtb.
  destruct (Rlt_dec (normalizedStart o) (normalizedEnd o)) as [Hlt | Hge].
  - rewrite (ltb_true _ _ Hlt), ltb_false by lra. lra.
  - rewrite (ltb_false (normalizedStart o)), ltb_true by lra. lra.
Qed.

(** The angle of the first and of the last boundary of the sweep. *)
Lemma boundary_angle_start (o : CylinderElliptic.options) :
  0 <= startAngleOf o ->
  cos (0 * rotationOf o + normalizedStart o) = cos (startAngleOf o)
  /\ sin (0 * rotationOf o + normalizedStart o) = sin (startAngleOf o).
Proof.
  intros Hsa. destruct (normalized_bounds _ Hsa) as [_ [Hc Hs]].
  replace (0 * rotationOf o + normalizedStart o) with (normalizedStart o) by ring.
  split; assumption.
Qed.

Lemma boundary_angle_end (o : CylinderElliptic.options) :
  0 <= startAngleOf o -> 0 <= endAngleOf o ->
  normalizedStart o <> normalizedEnd o ->
  cos (1 * rotationOf o + normalizedStart o) = cos (endAngleOf o)
  /\ sin (1 * rotationOf o + normalizedStart o) = sin (endAngleOf o).
Proof.
  intros Hsa Hea Hne.
  destruct (normalized_bounds _ Hea) as [_ [Hc Hs]].
  fold (normalizedEnd o) in Hc, Hs. rewrite <- Hc, <- Hs.
  unfold rotationOf, sweepRotation, Num.gtb.
  destruct (Rlt_dec (normalizedStart o) (normalizedEnd o)) as [Hlt | Hge].
  - rewrite (ltb_true _ _ Hlt), ltb_false by lra.
    replace (1 * (normalizedEnd o - normalizedStart o) + normalizedStart o)
      with (normalizedEnd o) by ring.
    split; reflexivity.
  - rewrite (ltb_false (normalizedStart o)), ltb_true by lra.
    replace (1 * (normalizedEnd o + (PI * 2 - normalizedStart o)) + normalizedStart o)
      with (normalizedEnd o + 2 * INR 1 * PI) by (simpl; ring).
    rewrite cos_period, sin_period. split; reflexivity.
Qed.

(** The points of a circular rim lie in the plane of their angle, and so do
    the points of the axis. *)
Lemma rim_on_plane (c : list R) (sa rot h stack slice r angle : R) :
  cos (slice * rot + sa) = cos angle -> sin (slice * rot + sa) = sin angle ->
  onBoundaryPlane (vec3.ofArray c) angle
    (vec3.add (point sa rot (vec3.fromValues 0 0 (- (h / 2))) (vec3.fromValues 0 0 h)
                 cylinderAxisX cylinderAxisY stack slice (r, r))
              (vec3.ofArray c)).
Proof.
  intros Hc Hs.
  unfold onBoundaryPlane, point, cylinderAxisX, cylinderAxisY,
    vec3.dot, vec3.add, vec3.subtract, vec3.scale; simpl.
  rewrite Hc, Hs. ring.
Qed.

Lemma rim_on_rim_plane (c : list R) (sa rot h stack slice r0 r1 s0 s1 angle : R) :
  s0 * r1 = s1 * r0 ->
  cos (slice * rot + sa) = cos angle -> sin (slice * rot + sa) = sin angle ->
  onRimPlane (vec3.ofArray c) (s0, s1) angle
    (vec3.add (point sa rot (vec3.fromValues 0 0 (- (h / 2))) (vec3.fromValues 0 0 h)
                 cylinderAxisX cylinderAxisY stack slice (r0, r1))
              (vec3.ofArray c)).
Proof.
  intros Hprop Hc Hs.
  unfold onRimPlane, point, cylinderAxisX, cylinderAxisY,
    vec3.dot, vec3.add, vec3.subtract, vec3.scale; simpl.
  rewrite Hc, Hs.
  match goal with
  | |- ?l = 0 =>
      replace l with (sin angle * cos angle * (s0 * r1 - s1 * r0)) by ring
  end.
  rewrite Hprop. ring.
Qed.

Lemma axis_on_rim_plane (c : list R) (radius : R * R) (height angle : R) :
  onRimPlane (vec3.ofArray c) radius angle
    (vec3.add (vec3.fromValues 0 0 height) (vec3.ofArray c)).
Proof.
  unfold onRimPlane, cylinderAxisX, cylinderAxisY,
    vec3.dot, vec3.add, vec3.subtract, vec3.scale; simpl.
  ring.
Qed.

Lemma axis_on_plane (c : list R) (height angle : R) :
  onBoundaryPlane (vec3.ofArray c) angle
    (vec3.add (vec3.fromValues 0 0 height) (vec3.ofArray c)).
Proof.
  unfold onBoundaryPlane, cylinderAxisX, cylinderAxisY,
    vec3.dot, vec3.add, vec3.subtract, vec3.scale; simpl.
  ring.
Qed.

(** A call that returns has passed every check. *)
Lemma cylinderElliptic_return_valid (EPS : R) (o : CylinderElliptic.options)
  (g : geom3.t) :
  cylinderElliptic EPS o = Return g ->
  fieldsValid EPS o
  /\ Num.ltb_nan (rotationOf o) (minAngle EPS (startRadiusOf o) (endRadiusOf o))
     = false.
Proof.
  intros Hrun. unfold cylinderElliptic in Hrun.
  fold (centerOf o) (heightOf o) (startRadiusOf o) (endRadiusOf o)
       (startAngleOf o) (endAngleOf o) (segmentsOf o) in Hrun.
  destruct (centerOf o) as [| c] eqn:Hc; [discriminate |].
  destruct (List.length c <? 3)%nat eqn:Hlen; [discriminate |].
  destruct (Num.ltb (heightOf o) (EPS * 2)) eqn:Hh; [discriminate |].
  destruct (Num.leb (fst (endRadiusOf o)) 0) eqn:He0; [discriminate |].
  destruct (Num.leb (fst (startRadiusOf o)) 0) eqn:Hs0; [discriminate |].
  destruct (Num.leb (snd (endRadiusOf o)) 0) eqn:He1; [discriminate |].
  destruct (Num.leb (snd (startRadiusOf o)) 0) eqn:Hs1; [discriminate |].
  destruct (Num.ltb (startAngleOf o) 0) eqn:Hsa; [discriminate |].
  destruct (Num.ltb (endAngleOf o) 0) eqn:Hea; [discriminate |].
  destruct (segmentsOf o <? 4)%Z eqn:Hseg; [discriminate |].
  cbn [orb] in Hrun.
  fold (normalizedStart o) (normalizedEnd o) in Hrun. fold (rotationOf o) in Hrun.
  destruct (Num.ltb_nan (rotationOf o) _) eqn:Hrot in Hrun; [discriminate |].
  unfold Num.ltb in Hh, Hsa, Hea. unfold Num.leb in He0, Hs0, He1, Hs1.
  repeat match goal with
         | H : (if ?d then true else false) = false |- _ =>
             destruct d; [discriminate | clear H]
         end.
  apply Nat.ltb_ge in Hlen. apply Z.ltb_ge in Hseg.
  split; [| exact Hrot].
  unfold fieldsValid.
  split; [exists c; split; assumption |].
  repeat (split; [lra |]). assumption.
Qed.


(** ** Sweeps of an eighth of a turn *)

Lemma inv_sqrt2 : 0 < 1 / sqrt 2 < 9 / 10 /\ 1 / sqrt 2 * (1 / sqrt 2) = 1 / 2.
Proof.
  assert (Hs : sqrt 2 * sqrt 2 = 2) by (apply sqrt_sqrt; lra).
  assert (Hp : 0 < sqrt 2) by (apply sqrt_lt_R0; lra).
  assert (Hu : 0 < 1 / sqrt 2) by (apply Rdiv_lt_0_compat; lra).
  assert (Hq : 1 / sqrt 2 * (1 / sqrt 2) = 1 / 2).
  { replace (1 / sqrt 2 * (1 / sqrt 2)) with (1 / (sqrt 2 * sqrt 2)) by (field; lra).
    rewrite Hs. reflexivity. }
  split; [| exact Hq]. split; [exact Hu | nra].
Qed.

Lemma acos_le_eighth (q : R) : 9 / 10 <= q <= 1 -> Ratan.acos q <= PI / 4.
Proof.
  intros Hq. destruct inv_sqrt2 as [[_ Hu] _].
  pose proof (acos_bound q) as [Hlo Hhi]. pose proof PI_RGT_0 as Hpi.
  destruct (Rle_dec (Ratan.acos q) (PI / 4)) as [Hle | Hgt]; [exact Hle |].
  exfalso.
  assert (Hcos : cos (Ratan.acos q) < cos (PI / 4))
    by (apply cos_decreasing_1; lra).
  rewrite cos_acos, cos_PI4 in Hcos by lra. lra.
Qed.

Lemma eighth_turn_angles (o : CylinderElliptic.options) :
  startAngleOf o = 0 -> endAngleOf o = PI / 4 ->
  normalizedStart o = 0 /\ normalizedEnd o = PI / 4 /\ rotationOf o = PI / 4.
Proof.
  intros Hsa Hea. pose proof two_pi_bounds as Hpi. pose proof PI_RGT_0.
  assert (Hs : normalizedStart o = 0)
    by (unfold normalizedStart; rewrite Hsa; apply rem_small; lra).
  assert (He : normalizedEnd o = PI / 4)
    by (unfold normalizedEnd; rewrite Hea; apply rem_small; lra).
  split; [exact Hs | split; [exact He |]].
  unfold rotationOf, sweepRotation, Num.gtb. rewrite Hs, He.
  rewrite (ltb_true 0 (PI / 4)), (ltb_false (PI / 4) 0) by lra. lra.
Qed.

Lemma eighth_turn_passes (sr er : R * R) :
  Num.min4 (fst sr) (snd sr) (fst er) (snd er) = 1 ->
  Num.ltb_nan (PI / 4) (minAngle sampleEPS sr er) = false.
Proof.
  intros Hmin. unfold minAngle; cbv zeta. rewrite Hmin.
  pose proof sampleEPS_bounds as Heps.
  assert (Hq : 9 / 10 <= (1 * 1 + 1 * 1 - sampleEPS * sampleEPS) / (2 * 1 * 1) <= 1).
  { replace ((1 * 1 + 1 * 1 - sampleEPS * sampleEPS) / (2 * 1 * 1))
      with (1 - sampleEPS * sampleEPS / 2) by field.
    nra. }
  unfold Num.acos.
  destruct (Rle_dec (-1) _) as [_ | Hn]; [| lra].
  destruct (Rle_dec _ 1) as [_ | Hn]; [| lra].
  cbn [Num.ltb_nan]. apply ltb_false. apply acos_le_eighth. exact Hq.
Qed.

(** The coordinates of a point of the rim, moved to the center. *)
Lemma point_coordinates (sa rot h stack slice r0 r1 c0 c1 c2 : R) :
  vec3.add (point sa rot (vec3.fromValues 0 0 (- (h / 2))) (vec3.fromValues 0 0 h)
              cylinderAxisX cylinderAxisY stack slice (r0, r1))
           (vec3.ofArray [c0; c1; c2])
  = vec3.fromValues (r0 * cos (slice * rot + sa) + c0)
                    (- (r1 * sin (slice * rot + sa)) + c1)
                    (stack * h - h / 2 + c2).
Proof.
  unfold point, cylinderAxisX, cylinderAxisY, vec3.add, vec3.scale, vec3.ofArray;
    simpl.
  apply vec3_eq; field.
Qed.

Lemma axis_coordinates (height c0 c1 c2 : R) :
  vec3.add (vec3.fromValues 0 0 height) (vec3.ofArray [c0; c1; c2])
  = vec3.fromValues c0 c1 (height + c2).
Proof. unfold vec3.add, vec3.ofArray; simpl. apply vec3_eq; ring. Qed.

(** The four walls of a sweep from 0 to an eighth of a turn, of height 2
    around the origin. *)
Lemma eighth_turn_walls (o : CylinderElliptic.options) :
  heightOf o = 2 -> normalizedStart o = 0 -> rotationOf o = PI / 4 ->
  wallsOf o [0; 0; 0] =
    [ poly3.fromPoints
        [ vec3.fromValues 0 0 (-1); vec3.fromValues 0 0 1;
          vec3.fromValues (fst (startRadiusOf o)) 0 (-1) ];
      poly3.fromPoints
        [ vec3.fromValues (fst (startRadiusOf o)) 0 (-1); vec3.fromValues 0 0 1;
          vec3.fromValues (fst (endRadiusOf o)) 0 1 ];
      poly3.fromPoints
        [ vec3.fromValues 0 0 (-1);
          vec3.fromValues (fst (startRadiusOf o) * (1 / sqrt 2))
                          (- (snd (startRadiusOf o) * (1 / sqrt 2))) (-1);
          vec3.fromValues 0 0 1 ];
      poly3.fromPoints
        [ vec3.fromValues (fst (startRadiusOf o) * (1 / sqrt 2))
                          (- (snd (startRadiusOf o) * (1 / sqrt 2))) (-1);
          vec3.fromValues (fst (endRadiusOf o) * (1 / sqrt 2))
                          (- (snd (endRadiusOf o) * (1 / sqrt 2))) 1;
          vec3.fromValues 0 0 1 ] ].
Proof.
  intros Hh Hs Hrot. pose proof PI_RGT_0 as Hpi.
  unfold wallsOf, wallPolygons; cbv zeta. rewrite Hh, Hs, Hrot.
  rewrite ltb_true by lra.
  destruct (startRadiusOf o) as [s0 s1]. destruct (endRadiusOf o) as [e0 e1].
  unfold fromPoints; cbn [map fst snd].
  rewrite !point_coordinates, !axis_coordinates.
  replace (0 * (PI / 4) + 0) with 0 by ring.
  replace (1 * (PI / 4) + 0) with (PI / 4) by ring.
  rewrite cos_0, sin_0, cos_PI4, sin_PI4.
  assert (Hsq : sqrt 2 <> 0) by (pose proof (sqrt_lt_R0 2); lra).
  repeat (f_equal; try (apply vec3_eq; field; exact Hsq)).
Qed.

(** ** [cylinderElliptic({endAngle: Math.PI / 4, segments: 4})] *)

Lemma min4_ones : Num.min4 1 1 1 1 = 1.
Proof. unfold Num.min4. rewrite !Rmin_left by lra. reflexivity. Qed.

Lemma thinWedge_runs :
  fieldsValid sampleEPS thinWedge
  /\ rotationOf thinWedge = PI / 4
  /\ slicesOf thinWedge = 0%Z
  /\ cylinderElliptic sampleEPS thinWedge
     = Return (geom3.create (wallsOf thinWedge [0; 0; 0])).
Proof.
  pose proof PI_RGT_0 as Hpi. pose proof sampleEPS_bounds as Heps.
  assert (Hv : fieldsValid sampleEPS thinWedge).
  { apply fieldsValid_defaults; try reflexivity;
      unfold startRadiusOf, endRadiusOf, startAngleOf, endAngleOf, segmentsOf;
      simpl; try lra; lia. }
  destruct (eighth_turn_angles thinWedge) as [Hs [He Hrot]]; try reflexivity.
  assert (Hn : slicesOf thinWedge = 0%Z).
  { unfold slicesOf, Num.floor. rewrite Hrot.
    replace (IZR (segmentsOf thinWedge) * (PI / 4 / (PI * 2))) with (1 / 2)
      by (unfold segmentsOf; simpl; field; lra).
    apply Zfloor_eq. simpl; lra. }
  split; [exact Hv | split; [exact Hrot | split; [exact Hn |]]].
  destruct (cylinderElliptic_valid sampleEPS thinWedge) as [c [Hc [_ Hrun]]];
    [lra | exact Hv | |].
  { rewrite Hrot. apply eighth_turn_passes. exact min4_ones. }
  injection Hc as <-. rewrite Hrun.
  unfold sweepOf, sweepPolygons; cbv zeta. rewrite Hn. reflexivity.
Qed.

(** Lists the directed edges of a mesh given by its polygons. *)
Ltac list_edges :=
  unfold meshEdges, edgesOf;
  cbn [geom3.polygons geom3.create poly3.vertices poly3.fromPoints flat_map
       combine app In].

(** C1, at a sweep thinner than one segment.  The call returns; the loop
    over the slices does not run, because [slices] is 0, and the mesh is the
    four walls alone.  The edge from the rim point (1, 0, -1) to the start
    point (0, 0, -1) belongs to the first wall, and no polygon has the edge
    back: the mesh is not closed. *)
Theorem thin_wedge_is_open :
  exists g,
    cylinderElliptic sampleEPS thinWedge = Return g
    /\ slicesOf thinWedge = 0%Z
    /\ geom3.polygons g =
         [ poly3.fromPoints
             [ vec3.fromValues 0 0 (-1); vec3.fromValues 0 0 1;
               vec3.fromValues 1 0 (-1) ];
           poly3.fromPoints
             [ vec3.fromValues 1 0 (-1); vec3.fromValues 0 0 1;
               vec3.fromValues 1 0 1 ];
           poly3.fromPoints
             [ vec3.fromValues 0 0 (-1);
               vec3.fromValues (1 / sqrt 2) (- (1 / sqrt 2)) (-1);
               vec3.fromValues 0 0 1 ];
           poly3.fromPoints
             [ vec3.fromValues (1 / sqrt 2) (- (1 / sqrt 2)) (-1);
               vec3.fromValues (1 / sqrt 2) (- (1 / sqrt 2)) 1;
               vec3.fromValues 0 0 1 ] ]
    /\ In (vec3.fromValues 1 0 (-1), vec3.fromValues 0 0 (-1)) (meshEdges g)
    /\ ~ In (vec3.fromValues 0 0 (-1), vec3.fromValues 1 0 (-1)) (meshEdges g)
    /\ ~ closedManifold g.
Proof.
  destruct thinWedge_runs as [_ [Hrot [Hn Hrun]]].
  destruct (eighth_turn_angles thinWedge) as [Hs _]; try reflexivity.
  rewrite (eighth_turn_walls thinWedge) in Hrun by (reflexivity || assumption).
  unfold startRadiusOf, endRadiusOf in Hrun.
  cbn [thinWedge CylinderElliptic.startRadius CylinderElliptic.endRadius
       assign fst snd] in Hrun.
  rewrite !Rmult_1_l in Hrun.
  eexists. split; [exact Hrun |]. split; [exact Hn |]. split; [reflexivity |].
  destruct inv_sqrt2 as [[Hu _] _].
  set (u := 1 / sqrt 2) in *.
  assert (Hmiss : ~ In (vec3.fromValues 0 0 (-1), vec3.fromValues 1 0 (-1))
                       (meshEdges
                          (geom3.create
                             [ poly3.fromPoints
                                 [ vec3.fromValues 0 0 (-1); vec3.fromValues 0 0 1;
                                   vec3.fromValues 1 0 (-1) ];
                               poly3.fromPoints
                                 [ vec3.fromValues 1 0 (-1); vec3.fromValues 0 0 1;
                                   vec3.fromValues 1 0 1 ];
                               poly3.fromPoints
                                 [ vec3.fromValues 0 0 (-1);
                                   vec3.fromValues u (- u) (-1);
                                   vec3.fromValues 0 0 1 ];
                               poly3.fromPoints
                                 [ vec3.fromValues u (- u) (-1);
                                   vec3.fromValues u (- u) 1;
                                   vec3.fromValues 0 0 1 ] ]))).
  { list_edges.
    intros Hin.
    repeat (destruct Hin as [Heq | Hin]; [injection Heq; intros; lra |]).
    exact Hin. }
  split; [| split; [exact Hmiss |]].
  - list_edges.
    right; right; left; reflexivity.
  - intros Hclosed.
    destruct (Hclosed (vec3.fromValues 1 0 (-1)) (vec3.fromValues 0 0 (-1)))
      as [_ Hback].
    + list_edges.
      right; right; left; reflexivity.
    + apply (count_occ_not_In edge_eq_dec) in Hmiss. rewrite Hmiss in Hback.
      discriminate.
Qed.

(** ** [cylinderElliptic({startRadius: [1, 2], endRadius: [2, 1],
    endAngle: Math.PI / 4})] *)

Lemma twistedWedge_runs :
  normalizedStart twistedWedge = 0
  /\ normalizedEnd twistedWedge = PI / 4
  /\ rotationOf twistedWedge = PI / 4
  /\ cylinderElliptic sampleEPS twistedWedge
     = Return (geom3.create (sweepOf twistedWedge [0; 0; 0]
                             ++ wallsOf twistedWedge [0; 0; 0])).
Proof.
  pose proof PI_RGT_0 as Hpi. pose proof sampleEPS_bounds as Heps.
  assert (Hv : fieldsValid sampleEPS twistedWedge).
  { apply fieldsValid_defaults; try reflexivity;
      unfold startRadiusOf, endRadiusOf, startAngleOf, endAngleOf, segmentsOf;
      simpl; try lra; lia. }
  destruct (eighth_turn_angles twistedWedge) as [Hs [He Hrot]]; try reflexivity.
  split; [exact Hs | split; [exact He | split; [exact Hrot |]]].
  destruct (cylinderElliptic_valid sampleEPS twistedWedge) as [c [Hc [_ Hrun]]];
    [lra | exact Hv | |].
  { rewrite Hrot. apply eighth_turn_passes.
    unfold Num.min4, startRadiusOf, endRadiusOf; simpl.
    rewrite (Rmin_left 1 2), (Rmin_right 2 1), (Rmin_left 1 1) by lra.
    reflexivity. }
  injection Hc as <-. exact Hrun.
Qed.



(** ** Repeated calls *)



(** * Further properties of the generators *)

(** ** When [cylinderElliptic] returns and what it throws *)

Lemma center_not_array_error (EPS : R) (o : CylinderElliptic.options) :
  centerOf o = NotArray ->
  cylinderElliptic EPS o = Throw "center must be an array".
Proof.
  intros Hc. unfold cylinderElliptic. fold (centerOf o). rewrite Hc. reflexivity.
Qed.

Lemma center_short_error (EPS : R) (o : CylinderElliptic.options) (c : list R) :
  centerOf o = JArray c -> (List.length c < 3)%nat ->
  cylinderElliptic EPS o = Throw "center must contain X, Y and Z values".
Proof.
  intros Hc Hlen. unfold cylinderElliptic. fold (centerOf o). rewrite Hc.
  replace (List.length c <? 3)%nat with true
    by (symmetry; apply Nat.ltb_lt; assumption).
  reflexivity.
Qed.

Lemma angle_error (EPS : R) (o : CylinderElliptic.options) (c : list R) :
  centerOf o = JArray c -> (3 <= List.length c)%nat ->
  EPS * 2 <= heightOf o ->
  0 < fst (startRadiusOf o) -> 0 < snd (startRadiusOf o) ->
  0 < fst (endRadiusOf o) -> 0 < snd (endRadiusOf o) ->
  startAngleOf o < 0 \/ endAngleOf o < 0 ->
  cylinderElliptic EPS o = Throw "startAngle and endAngle must be positive".
Proof.
  intros Hc Hlen Hh Hs0 Hs1 He0 He1 Ha.
  unfold cylinderElliptic.
  unfold centerOf, heightOf, startRadiusOf, endRadiusOf, startAngleOf,
    endAngleOf in *.
  rewrite Hc.
  replace (List.length c <? 3)%nat with false
    by (symmetry; apply Nat.ltb_ge; assumption).
  rewrite (ltb_false _ _ Hh).
  rewrite !leb_false by assumption.
  match goal with
  | |- (if false || false || false || false then _ else
          if ?b then _ else _) = _ => assert (Hb : b = true)
  end.
  { rewrite orb_true_iff.
    destruct Ha as [H | H]; rewrite (ltb_true _ _ H); tauto. }
  cbn [orb]. rewrite Hb. reflexivity.
Qed.

Lemma cylinderElliptic_throws (EPS : R) (o : CylinderElliptic.options)
  (message : string) :
  cylinderElliptic EPS o = Throw message -> In message cylinderMessages.
Proof.
  intros Hthrow. unfold cylinderElliptic in Hthrow.
  unfold cylinderMessages, insufficientRotation.
  destruct (assign (JArray [0; 0; 0]) (CylinderElliptic.center o));
    [injection Hthrow as <-; simpl; tauto |].
  repeat match type of Hthrow with
         | (if ?b then _ else _) = _ =>
             destruct b; [injection Hthrow as <-; simpl; tauto |]
         end.
  discriminate.
Qed.

(** X1. [cylinderElliptic] returns a mesh exactly when the checks of the
    fields all pass and the sweep is not below the minimum angle; when it
    does not return, it throws one of its seven messages, and nothing
    else. *)
Theorem cylinderElliptic_returns_iff (EPS : R) (o : CylinderElliptic.options) :
  ((exists g, cylinderElliptic EPS o = Return g)
   <-> fieldsValid EPS o
       /\ Num.ltb_nan (rotationOf o)
            (minAngle EPS (startRadiusOf o) (endRadiusOf o)) = false)
  /\ (forall message,
        cylinderElliptic EPS o = Throw message -> In message cylinderMessages)
  /\ ((exists g, cylinderElliptic EPS o = Return g)
      \/ exists message, cylinderElliptic EPS o = Throw message).
Proof.
  split; [| split].
  - split.
    + intros [g Hg]. exact (cylinderElliptic_return_valid EPS o g Hg).
    + intros [Hv Hrot].
      destruct (cylinderElliptic_checked EPS o Hv) as [c [_ [_ Hrun]]].
      rewrite Hrot in Hrun. cbv zeta in Hrun. eexists; exact Hrun.
  - intros message. apply cylinderElliptic_throws.
  - destruct (cylinderElliptic EPS o) as [g | message];
      [left; exists g | right; exists message]; reflexivity.
Qed.

(** X2. The checks of [cylinderElliptic] run in a fixed order and the first
    one that fails decides the message: the center (not an array, then
    fewer than three elements), the height, the four radius components, the
    sign of the two angles, the segments, and last the sweep.  A negative
    angle is rejected although angles are reduced modulo 2π afterwards. *)
Theorem cylinderElliptic_first_failure (EPS : R) (o : CylinderElliptic.options) :
  (centerOf o = NotArray ->
   cylinderElliptic EPS o = Throw "center must be an array")
  /\ (forall c, centerOf o = JArray c -> (List.length c < 3)%nat ->
      cylinderElliptic EPS o = Throw "center must contain X, Y and Z values")
  /\ (forall c, centerOf o = JArray c -> (3 <= List.length c)%nat ->
      (heightOf o < EPS * 2 ->
       cylinderElliptic EPS o = Throw "height must be larger then zero")
      /\ (EPS * 2 <= heightOf o ->
          (fst (endRadiusOf o) <= 0 \/ fst (startRadiusOf o) <= 0
           \/ snd (endRadiusOf o) <= 0 \/ snd (startRadiusOf o) <= 0 ->
           cylinderElliptic EPS o
           = Throw "endRadus and startRadius should be positive")
          /\ (0 < fst (startRadiusOf o) -> 0 < snd (startRadiusOf o) ->
              0 < fst (endRadiusOf o) -> 0 < snd (endRadiusOf o) ->
              (startAngleOf o < 0 \/ endAngleOf o < 0 ->
               cylinderElliptic EPS o
               = Throw "startAngle and endAngle must be positive")
              /\ (0 <= startAngleOf o -> 0 <= endAngleOf o ->
                  ((segmentsOf o < 4)%Z ->
                   cylinderElliptic EPS o = Throw "segments must be four or more")
                  /\ ((4 <= segmentsOf o)%Z ->
                      Num.ltb_nan (rotationOf o)
                        (minAngle EPS (startRadiusOf o) (endRadiusOf o)) = true ->
                      cylinderElliptic EPS o = Throw insufficientRotation))))).
Proof.
  split; [apply center_not_array_error |].
  split; [intros c; apply center_short_error |].
  intros c Hc Hlen. split; [intros Hh; apply (height_error EPS o c Hc Hlen Hh) |].
  intros Hh. split; [intros Hr; apply (radius_error EPS o c Hc Hlen Hh Hr) |].
  intros Hs0 Hs1 He0 He1.
  split; [intros Ha; apply (angle_error EPS o c); assumption |].
  intros Hsa Hea.
  split; [intros Hseg; apply (segments_error EPS o c); assumption |].
  intros Hseg Hrot. apply cylinderElliptic_thin; [| exact Hrot].
  unfold fieldsValid.
  split; [exists c; split; assumption |].
  repeat (split; [assumption |]). assumption.
Qed.

Lemma cylinderElliptic_first_failure_witness :
  cylinderElliptic sampleEPS
    {| CylinderElliptic.center := Some NotArray;
       CylinderElliptic.height := Some 0;
       CylinderElliptic.startRadius := None;
       CylinderElliptic.startAngle := None;
       CylinderElliptic.endRadius := None;
       CylinderElliptic.endAngle := None;
       CylinderElliptic.segments := Some 1%Z |}
  = Throw "center must be an array".
Proof.
  apply (cylinderElliptic_first_failure sampleEPS). reflexivity.
Defined.

(** ** How many polygons, and of which shape *)

Lemma walls_length c sr er sa rot start end_ ray aX aY :
  List.length (wallPolygons c sr er sa rot start end_ ray aX aY)
  = (if Num.ltb rot (PI * 2) then 4 else 0)%nat.
Proof. unfold wallPolygons. destruct (Num.ltb rot (PI * 2)); reflexivity. Qed.

Lemma slicePolygons_shapes c sr er sa rot slices start end_ ray aX aY (i : nat) :
  Forall (fun p => List.length (poly3.vertices p) = 3%nat
                   \/ (List.length (poly3.vertices p) = 4%nat
                       /\ fst er = fst sr /\ snd er = snd sr))
         (slicePolygons c sr er sa rot slices start end_ ray aX aY i).
Proof.
  unfold slicePolygons, Num.eqb.
  destruct (Req_dec_T (fst er) (fst sr)) as [H0 | H0];
    destruct (Req_dec_T (snd er) (snd sr)) as [H1 | H1]; cbn [andb];
    repeat match goal with
           | |- context [if ?b then _ else _] => destruct b
           end;
    cbn [app];
    repeat (apply Forall_cons;
            [first [ left; reflexivity
                   | right; split; [reflexivity | split; assumption] ] |]);
    apply Forall_nil.
Qed.

Lemma wallPolygons_shapes c sr er sa rot start end_ ray aX aY :
  Forall (fun p => List.length (poly3.vertices p) = 3%nat)
         (wallPolygons c sr er sa rot start end_ ray aX aY).
Proof.
  unfold wallPolygons. destruct (Num.ltb rot (PI * 2)); repeat constructor.
Qed.

Lemma Forall_flat_map {A B : Type} (P : B -> Prop) (f : A -> list B) (l : list A) :
  (forall a, Forall P (f a)) -> Forall P (flat_map f l).
Proof.
  intros H. induction l as [| a l IH]; cbn [flat_map]; [constructor |].
  apply Forall_app; split; [apply H | exact IH].
Qed.

(** The mesh of a call that returns, whatever the frame. *)
Lemma cylinderElliptic_return_mesh (EPS : R) (o : CylinderElliptic.options)
  (g : geom3.t) :
  cylinderElliptic EPS o = Return g ->
  exists c start end_ ray aX aY,
    centerOf o = JArray c
    /\ geom3.polygons g
       = sweepPolygons c (startRadiusOf o) (endRadiusOf o) (normalizedStart o)
           (rotationOf o) (slicesOf o) start end_ ray aX aY
         ++ wallPolygons c (startRadiusOf o) (endRadiusOf o) (normalizedStart o)
              (rotationOf o) start end_ ray aX aY.
Proof.
  intros Hrun.
  destruct (cylinderElliptic_return_valid EPS o g Hrun) as [Hv Hrot].
  destruct (cylinderElliptic_checked EPS o Hv) as [c [Hc [_ Hmesh]]].
  rewrite Hrot in Hmesh. cbv zeta in Hmesh.
  rewrite Hmesh in Hrun. injection Hrun as <-.
  exists c. do 5 eexists. split; [exact Hc | reflexivity].
Qed.


Lemma defaultCylinder_returns :
  exists g, cylinderElliptic sampleEPS defaultCylinder = Return g.
Proof.
  pose proof two_pi_bounds as Hpi.
  assert (Hv : fieldsValid sampleEPS defaultCylinder).
  { apply fieldsValid_defaults; try reflexivity;
      unfold startRadiusOf, endRadiusOf, startAngleOf, endAngleOf, segmentsOf;
      simpl; try lra; lia. }
  destruct (cylinderElliptic_checked sampleEPS defaultCylinder Hv)
    as [c [_ [_ Hrun]]].
  assert (Hrot : rotationOf defaultCylinder = PI * 2).
  { apply rotation_full.
    unfold normalizedStart, normalizedEnd, startAngleOf, endAngleOf; simpl.
    rewrite rem_small, rem_self by lra. reflexivity. }
  rewrite Hrot, full_turn_passes in Hrun. cbv zeta in Hrun.
  eexists; exact Hrun.
Qed.


(** X4. Every polygon of a returned mesh is a triangle or a quad, and a
    quad occurs only when the start and end radii are equal: with different
    radii the mesh is made of triangles alone. *)
Theorem cylinderElliptic_polygon_shapes (EPS : R) (o : CylinderElliptic.options)
  (g : geom3.t) :
  cylinderElliptic EPS o = Return g ->
  Forall (fun p => List.length (poly3.vertices p) = 3%nat
                   \/ (List.length (poly3.vertices p) = 4%nat
                       /\ startRadiusOf o = endRadiusOf o))
         (geom3.polygons g).
Proof.
  intros Hrun.
  destruct (cylinderElliptic_return_mesh EPS o g Hrun)
    as [c [start [end_ [ray [aX [aY [_ Hmesh]]]]]]].
  rewrite Hmesh, sweepPolygons_flat_map. apply Forall_app. split.
  - apply Forall_flat_map. intros i.
    eapply Forall_impl; [| apply slicePolygons_shapes].
    intros p [H3 | [H4 [H0 H1]]]; [left; exact H3 | right].
    split; [exact H4 |].
    destruct (startRadiusOf o), (endRadiusOf o); cbn [fst snd] in *. congruence.
  - eapply Forall_impl; [| apply wallPolygons_shapes].
    intros p H3; left; exact H3.
Qed.

Lemma cylinderElliptic_polygon_shapes_witness :
  exists g,
    cylinderElliptic sampleEPS defaultCylinder = Return g
    /\ Forall (fun p => List.length (poly3.vertices p) = 3%nat
                        \/ (List.length (poly3.vertices p) = 4%nat
                            /\ startRadiusOf defaultCylinder
                               = endRadiusOf defaultCylinder))
              (geom3.polygons g).
Proof.
  destruct defaultCylinder_returns as [g Hg].
  exists g. split; [exact Hg |].
  exact (cylinderElliptic_polygon_shapes sampleEPS defaultCylinder g Hg).
Defined.

(** ** The sweep and the number of slices *)

Lemma rotation_range (o : CylinderElliptic.options) :
  0 <= startAngleOf o -> 0 <= endAngleOf o ->
  0 < rotationOf o <= PI * 2.
Proof.
  intros Hsa Hea. pose proof two_pi_bounds as Hpi.
  destruct (Req_dec_T (normalizedStart o) (normalizedEnd o)) as [Heq | Hne].
  - rewrite (rotation_full o Heq). lra.
  - destruct (rotation_partial o Hsa Hea Hne). lra.
Qed.

Lemma slices_range (o : CylinderElliptic.options) :
  0 <= startAngleOf o -> 0 <= endAngleOf o -> (0 <= segmentsOf o)%Z ->
  (0 <= slicesOf o <= segmentsOf o)%Z
  /\ (rotationOf o < PI * 2 -> (0 < segmentsOf o)%Z ->
      (slicesOf o < segmentsOf o)%Z).
Proof.
  intros Hsa Hea Hseg. pose proof two_pi_bounds as Hpi.
  destruct (rotation_range o Hsa Hea) as [Hlo Hhi].
  apply IZR_le in Hseg.
  assert (Hq : 0 < rotationOf o / (PI * 2) <= 1).
  { split.
    - apply Rdiv_lt_0_compat; lra.
    - apply Rmult_le_reg_r with (PI * 2); [lra |].
      unfold Rdiv. rewrite Rmult_assoc, Rinv_l by lra. lra. }
  unfold slicesOf, Num.floor.
  pose proof (Zfloor_bound (IZR (segmentsOf o) * (rotationOf o / (PI * 2))))
    as [Hf _].
  split; [split |].
  - apply Zfloor_lub. simpl. nra.
  - apply le_IZR. nra.
  - intros Hlt Hpos. apply IZR_lt in Hpos.
    assert (Hq' : rotationOf o / (PI * 2) < 1).
    { apply Rmult_lt_reg_r with (PI * 2); [lra |].
      unfold Rdiv. rewrite Rmult_assoc, Rinv_l by lra. lra. }
    apply lt_IZR. nra.
Qed.





(** X7. A sweep of half a turn or more is never rejected: when the checks
    of the fields pass and the rotation is at least π, the call returns,
    for every tolerance and all radii.  This covers every full turn. *)
Theorem cylinderElliptic_wide_sweep_accepted (EPS : R)
  (o : CylinderElliptic.options) :
  fieldsValid EPS o -> PI <= rotationOf o ->
  exists g, cylinderElliptic EPS o = Return g.
Proof.
  intros Hv Hwide.
  destruct (cylinderElliptic_checked EPS o Hv) as [c [_ [_ Hrun]]].
  assert (Hrot : Num.ltb_nan (rotationOf o)
                   (minAngle EPS (startRadiusOf o) (endRadiusOf o)) = false).
  { unfold minAngle, Num.acos; cbv zeta.
    repeat match goal with |- context [Rle_dec ?a ?b] => destruct (Rle_dec a b) end;
      try reflexivity.
    cbn [Num.ltb_nan]. apply ltb_false.
    match goal with |- Ratan.acos ?q <= _ => pose proof (acos_bound q) end.
    lra. }
  rewrite Hrot in Hrun. cbv zeta in Hrun. eexists; exact Hrun.
Qed.

Lemma cylinderElliptic_wide_sweep_accepted_witness :
  fieldsValid sampleEPS defaultCylinder
  /\ PI <= rotationOf defaultCylinder
  /\ exists g, cylinderElliptic sampleEPS defaultCylinder = Return g.
Proof.
  pose proof two_pi_bounds as Hpi. pose proof PI_RGT_0 as Hpos.
  assert (Hv : fieldsValid sampleEPS defaultCylinder).
  { apply fieldsValid_defaults; try reflexivity;
      unfold startRadiusOf, endRadiusOf, startAngleOf, endAngleOf, segmentsOf;
      simpl; try lra; lia. }
  assert (Hrot : rotationOf defaultCylinder = PI * 2).
  { apply rotation_full.
    unfold normalizedStart, normalizedEnd, startAngleOf, endAngleOf; simpl.
    rewrite rem_small, rem_self by lra. reflexivity. }
  assert (Hwide : PI <= rotationOf defaultCylinder) by (rewrite Hrot; lra).
  split; [exact Hv | split; [exact Hwide |]].
  exact (cylinderElliptic_wide_sweep_accepted sampleEPS defaultCylinder Hv Hwide).
Defined.

(** X8. Exchanging the two angles gives the complementary sweep: when the
    reduced angles differ, the rotation of a configuration and the rotation
    of the configuration with startAngle and endAngle exchanged add up to
    a full turn. *)
Theorem swapped_angles_complement (o : CylinderElliptic.options) :
  normalizedStart o <> normalizedEnd o ->
  rotationOf o + rotationOf (swapAngles o) = PI * 2.
Proof.
  intros Hne.
  assert (Hs : normalizedStart (swapAngles o) = normalizedEnd o) by reflexivity.
  assert (He : normalizedEnd (swapAngles o) = normalizedStart o) by reflexivity.
  unfold rotationOf. rewrite Hs, He.
  unfold sweepRotation, Num.gtb.
  destruct (Rlt_dec (normalizedStart o) (normalizedEnd o)) as [Hlt | Hge].
  - rewrite (ltb_true _ _ Hlt), (ltb_false (normalizedEnd o)) by lra. lra.
  - rewrite (ltb_false (normalizedStart o)), (ltb_true (normalizedEnd o)) by lra.
    lra.
Qed.

Lemma swapped_angles_complement_witness :
  normalizedStart thinWedge <> normalizedEnd thinWedge
  /\ rotationOf thinWedge + rotationOf (swapAngles thinWedge) = PI * 2.
Proof.
  destruct (eighth_turn_angles thinWedge) as [Hs [He _]]; try reflexivity.
  assert (Hne : normalizedStart thinWedge <> normalizedEnd thinWedge)
    by (rewrite Hs, He; pose proof PI_RGT_0; lra).
  split; [exact Hne |].
  exact (swapped_angles_complement thinWedge Hne).
Defined.

(** ** Angles are taken modulo a full turn *)

Lemma rem_shift (a b : R) (k : nat) :
  0 <= a -> 0 < b -> Num.rem (a + b * INR k) b = Num.rem a b.
Proof.
  intros Ha Hb. unfold Num.rem, Num.trunc.
  assert (Hq : 0 <= a / b).
  { apply Rmult_le_pos; [assumption | left; apply Rinv_0_lt_compat; lra]. }
  assert (Hk : 0 <= INR k) by apply pos_INR.
  replace ((a + b * INR k) / b) with (a / b + IZR (Z.of_nat k))
    by (rewrite <- INR_IZR_INZ; field; lra).
  destruct (Rlt_dec (a / b + IZR (Z.of_nat k)) 0) as [Hneg | _];
    [rewrite <- INR_IZR_INZ in Hneg; lra |].
  destruct (Rlt_dec (a / b) 0) as [Hneg | _]; [lra |].
  rewrite Zfloor_addz, plus_IZR, <- INR_IZR_INZ. ring.
Qed.

(** The result depends on the two angles through their sign checks and
    their remainders only. *)
Lemma cylinderElliptic_angles_ext (EPS : R) (o o' : CylinderElliptic.options) :
  centerOf o = centerOf o' -> heightOf o = heightOf o' ->
  startRadiusOf o = startRadiusOf o' -> endRadiusOf o = endRadiusOf o' ->
  segmentsOf o = segmentsOf o' ->
  Num.ltb (startAngleOf o) 0 = Num.ltb (startAngleOf o') 0 ->
  Num.ltb (endAngleOf o) 0 = Num.ltb (endAngleOf o') 0 ->
  normalizedStart o = normalizedStart o' ->
  normalizedEnd o = normalizedEnd o' ->
  cylinderElliptic EPS o = cylinderElliptic EPS o'.
Proof.
  intros Hc Hh Hsr Her Hseg Hsa Hea Hns Hne.
  unfold cylinderElliptic.
  fold (centerOf o) (heightOf o) (startRadiusOf o) (startAngleOf o)
       (endRadiusOf o) (endAngleOf o) (segmentsOf o).
  fold (centerOf o') (heightOf o') (startRadiusOf o') (startAngleOf o')
       (endRadiusOf o') (endAngleOf o') (segmentsOf o').
  fold (normalizedStart o) (normalizedEnd o)
       (normalizedStart o') (normalizedEnd o').
  rewrite Hc, Hh, Hsr, Her, Hseg, Hsa, Hea, Hns, Hne. reflexivity.
Qed.



(** ** Moving the center *)

Lemma map_flat_map {A B C : Type} (f : B -> C) (g : A -> list B) (l : list A) :
  map f (flat_map g l) = flat_map (fun a => map f (g a)) l.
Proof.
  induction l as [| a l IH]; cbn [flat_map map]; [reflexivity |].
  rewrite map_app, IH. reflexivity.
Qed.

Lemma fromPoints_moved (c c' : list R) (points : list vec3.t) :
  fromPoints c' points
  = translatePolygon (vec3.subtract (vec3.ofArray c') (vec3.ofArray c))
      (fromPoints c points).
Proof.
  unfold fromPoints, translatePolygon, poly3.fromPoints; cbn [poly3.vertices].
  f_equal. rewrite map_map. apply map_ext. intros p.
  unfold vec3.add, vec3.subtract; simpl. apply vec3_eq; ring.
Qed.

Lemma slicePolygons_moved c c' sr er sa rot slices start end_ ray aX aY (i : nat) :
  slicePolygons c' sr er sa rot slices start end_ ray aX aY i
  = map (translatePolygon (vec3.subtract (vec3.ofArray c') (vec3.ofArray c)))
        (slicePolygons c sr er sa rot slices start end_ ray aX aY i).
Proof.
  unfold slicePolygons.
  repeat match goal with
         | |- context [if ?b then _ else _] => destruct b
         end;
    cbn [map app]; rewrite ?(fromPoints_moved c c'); reflexivity.
Qed.

Lemma wallPolygons_moved c c' sr er sa rot start end_ ray aX aY :
  wallPolygons c' sr er sa rot start end_ ray aX aY
  = map (translatePolygon (vec3.subtract (vec3.ofArray c') (vec3.ofArray c)))
        (wallPolygons c sr er sa rot start end_ ray aX aY).
Proof.
  unfold wallPolygons. destruct (Num.ltb rot (PI * 2)); [| reflexivity].
  cbn [map]. rewrite !(fromPoints_moved c c'). reflexivity.
Qed.

(** X10. The center only moves the mesh.  If a call returns a mesh for a
    center, the call with another center of at least three elements, every
    other field the same, returns that mesh moved by the difference of the
    two centers: the same polygons in the same order, vertex for vertex. *)
Theorem cylinderElliptic_center_moves (EPS : R) (o : CylinderElliptic.options)
  (c c' : list R) (g : geom3.t) :
  centerOf o = JArray c -> (3 <= List.length c')%nat ->
  cylinderElliptic EPS o = Return g ->
  cylinderElliptic EPS (withCenter c' o)
  = Return (translateMesh (vec3.subtract (vec3.ofArray c') (vec3.ofArray c)) g).
Proof.
  intros Hc Hlen' Hrun.
  destruct (cylinderElliptic_return_valid EPS o g Hrun) as [Hv Hrot].
  assert (Hv' : fieldsValid EPS (withCenter c' o)).
  { destruct Hv as [_ Hrest]. split; [| exact Hrest].
    exists c'. split; [reflexivity | exact Hlen']. }
  destruct (cylinderElliptic_checked EPS o Hv) as [c0 [Hc0 [_ Hmesh]]].
  rewrite Hc in Hc0. injection Hc0 as <-.
  destruct (cylinderElliptic_checked EPS (withCenter c' o) Hv')
    as [c1 [Hc1 [_ Hmesh']]].
  injection Hc1 as <-.
  rewrite Hmesh in Hrun. rewrite Hrot in Hrun. cbv zeta in Hrun.
  injection Hrun as <-.
  rewrite Hmesh'.
  change (rotationOf (withCenter c' o)) with (rotationOf o).
  change (startRadiusOf (withCenter c' o)) with (startRadiusOf o).
  change (endRadiusOf (withCenter c' o)) with (endRadiusOf o).
  change (normalizedStart (withCenter c' o)) with (normalizedStart o).
  change (slicesOf (withCenter c' o)) with (slicesOf o).
  change (heightOf (withCenter c' o)) with (heightOf o).
  rewrite Hrot. cbv zeta.
  unfold translateMesh. cbn [geom3.polygons geom3.create].
  do 2 f_equal.
  rewrite map_app, !sweepPolygons_flat_map, map_flat_map.
  f_equal.
  - apply flat_map_ext. intros i. apply slicePolygons_moved.
  - apply wallPolygons_moved.
Qed.

Lemma cylinderElliptic_center_moves_witness :
  exists g,
    cylinderElliptic sampleEPS defaultCylinder = Return g
    /\ cylinderElliptic sampleEPS (withCenter [5; 5; 5] defaultCylinder)
       = Return (translateMesh
                   (vec3.subtract (vec3.ofArray [5; 5; 5])
                                  (vec3.ofArray [0; 0; 0])) g).
Proof.
  destruct defaultCylinder_returns as [g Hg].
  exists g. split; [exact Hg |].
  apply (cylinderElliptic_center_moves sampleEPS defaultCylinder [0; 0; 0]);
    [reflexivity | simpl; lia | exact Hg].
Defined.

(** ** Where the vertices of the cylinder lie *)

Section CylinderVertices.

Variables (c : list R) (h sa rot : R) (sr er : R * R).
Hypothesis sr_pos : 0 < fst sr /\ 0 < snd sr.
Hypothesis er_pos : 0 < fst er /\ 0 < snd er.

Let start : vec3.t := vec3.fromValues 0 0 (- (h / 2)).
Let end_ : vec3.t := vec3.fromValues 0 0 (h / 2).
Let ray : vec3.t := vec3.fromValues 0 0 h.
Let rim (stack slice : R) (radius : R * R) : vec3.t :=
  vec3.add (point sa rot start ray cylinderAxisX cylinderAxisY stack slice radius)
           (vec3.ofArray c).

Lemma start_center_on_end :
  onCylinderEnds c h sr er (vec3.add start (vec3.ofArray c)).
Proof.
  left. unfold start, vec3.add, vec3.ofArray; simpl.
  split; [ring | left; split; ring].
Qed.

Lemma end_center_on_end :
  onCylinderEnds c h sr er (vec3.add end_ (vec3.ofArray c)).
Proof.
  right. unfold end_, vec3.add, vec3.ofArray; simpl.
  split; [ring | left; split; ring].
Qed.

Lemma ellipse_of_angle (r0 r1 cx cy theta : R) :
  0 < r0 -> 0 < r1 ->
  ((r0 * cos theta + cx - cx) / r0) ^ 2
  + ((- (r1 * sin theta) + cy - cy) / r1) ^ 2 = 1.
Proof.
  intros H0 H1.
  replace ((r0 * cos theta + cx - cx) / r0) with (cos theta) by (field; lra).
  replace ((- (r1 * sin theta) + cy - cy) / r1) with (- sin theta) by (field; lra).
  pose proof (sin2_cos2 theta) as H. unfold Rsqr in H. nra.
Qed.

Lemma rim_coordinates (stack slice : R) (radius : R * R) :
  rim stack slice radius
  = vec3.fromValues (fst radius * cos (slice * rot + sa) + nth 0 c 0)
                    (- (snd radius * sin (slice * rot + sa)) + nth 1 c 0)
                    (stack * h - h / 2 + nth 2 c 0).
Proof.
  unfold rim, point, start, ray, cylinderAxisX, cylinderAxisY,
    vec3.add, vec3.scale, vec3.ofArray; simpl.
  apply vec3_eq; field.
Qed.

Lemma start_rim_on_end (slice : R) :
  onCylinderEnds c h sr er (rim 0 slice sr).
Proof.
  rewrite rim_coordinates. left. cbn [vec3.x vec3.y vec3.z]. split; [lra |].
  right. unfold onEllipse; cbn [vec3.x vec3.y].
  apply ellipse_of_angle; apply sr_pos.
Qed.

Lemma start_rim_on_end_eq (slice : R) (radius : R * R) :
  radius = sr -> onCylinderEnds c h sr er (rim 0 slice radius).
Proof. intros ->. apply start_rim_on_end. Qed.

Lemma end_rim_on_end (slice : R) :
  onCylinderEnds c h sr er (rim 1 slice er).
Proof.
  rewrite rim_coordinates. right. cbn [vec3.x vec3.y vec3.z]. split; [lra |].
  right. unfold onEllipse; cbn [vec3.x vec3.y].
  apply ellipse_of_angle; apply er_pos.
Qed.

Lemma slice_vertices_on_ends (slices : Z) (i : nat) :
  Forall (onCylinderEnds c h sr er)
    (flat_map poly3.vertices
       (slicePolygons c sr er sa rot slices start end_ ray
          cylinderAxisX cylinderAxisY i)).
Proof.
  unfold slicePolygons, Num.eqb, Num.gtb.
  rewrite !ltb_true by (apply sr_pos || apply er_pos).
  destruct (Req_dec_T (fst er) (fst sr)) as [H0 | H0];
    [destruct (Req_dec_T (snd er) (snd sr)) as [H1 | H1] |]; cbn [andb].
  - assert (Her : er = sr)
      by (destruct er, sr; cbn [fst snd] in H0, H1; congruence).
    unfold fromPoints; cbn [flat_map map app poly3.vertices poly3.fromPoints].
    repeat (apply Forall_cons;
            [first [ apply start_center_on_end | apply end_center_on_end
                   | apply end_rim_on_end
                   | apply start_rim_on_end_eq; exact Her ] |]).
    apply Forall_nil.
  - unfold fromPoints; cbn [flat_map map app poly3.vertices poly3.fromPoints].
    repeat (apply Forall_cons;
            [first [ apply start_center_on_end | apply end_center_on_end
                   | apply end_rim_on_end | apply start_rim_on_end ] |]).
    apply Forall_nil.
  - unfold fromPoints; cbn [flat_map map app poly3.vertices poly3.fromPoints].
    repeat (apply Forall_cons;
            [first [ apply start_center_on_end | apply end_center_on_end
                   | apply end_rim_on_end | apply start_rim_on_end ] |]).
    apply Forall_nil.
Qed.

Lemma wall_vertices_on_ends :
  Forall (onCylinderEnds c h sr er)
    (flat_map poly3.vertices
       (wallPolygons c sr er sa rot start end_ ray cylinderAxisX cylinderAxisY)).
Proof.
  unfold wallPolygons. destruct (Num.ltb rot (PI * 2)); [| apply Forall_nil].
  unfold fromPoints; cbn [flat_map map app poly3.vertices poly3.fromPoints].
  repeat (apply Forall_cons;
          [first [ apply start_center_on_end | apply end_center_on_end
                 | apply end_rim_on_end | apply start_rim_on_end ] |]).
  apply Forall_nil.
Qed.

End CylinderVertices.

Lemma sweep_and_walls_on_ends (o : CylinderElliptic.options) (c : list R) :
  0 < fst (startRadiusOf o) -> 0 < snd (startRadiusOf o) ->
  0 < fst (endRadiusOf o) -> 0 < snd (endRadiusOf o) ->
  Forall (onCylinderEnds c (heightOf o) (startRadiusOf o) (endRadiusOf o))
         (meshVertices (geom3.create (sweepOf o c ++ wallsOf o c))).
Proof.
  intros Hs0 Hs1 He0 He1.
  unfold meshVertices. cbn [geom3.polygons geom3.create].
  rewrite flat_map_app. apply Forall_app. split.
  - unfold sweepOf; cbv zeta. rewrite sweepPolygons_flat_map.
    apply Forall_forall. intros v Hin.
    apply in_flat_map in Hin as [p [Hp Hin]].
    apply in_flat_map in Hp as [i [_ Hp]].
    pose proof (slice_vertices_on_ends c (heightOf o) (normalizedStart o)
                  (rotationOf o) (startRadiusOf o) (endRadiusOf o)
                  (conj Hs0 Hs1) (conj He0 He1) (slicesOf o) i) as Hall.
    rewrite Forall_forall in Hall. apply Hall.
    apply in_flat_map. exists p. split; assumption.
  - unfold wallsOf; cbv zeta.
    apply (wall_vertices_on_ends c (heightOf o) (normalizedStart o)
             (rotationOf o) (startRadiusOf o) (endRadiusOf o)
             (conj Hs0 Hs1) (conj He0 He1)).
Qed.

(** X11. Every vertex of a returned mesh lies on one of the two ends of the
    cylinder: in the plane at half the height below or above the center,
    and there it is the center of that end or a point of its ellipse, the
    ellipse of startRadius below and of endRadius above. *)
Theorem cylinderElliptic_vertices_on_ends (EPS : R)
  (o : CylinderElliptic.options) (g : geom3.t) :
  0 < EPS ->
  cylinderElliptic EPS o = Return g ->
  exists c,
    centerOf o = JArray c
    /\ Forall (onCylinderEnds c (heightOf o) (startRadiusOf o) (endRadiusOf o))
              (meshVertices g).
Proof.
  intros Heps Hrun.
  destruct (cylinderElliptic_return_valid EPS o g Hrun) as [Hv Hrot].
  destruct (cylinderElliptic_valid EPS o Heps Hv Hrot) as [c [Hc [_ Hmesh]]].
  rewrite Hmesh in Hrun. injection Hrun as <-.
  destruct Hv as [_ [_ [Hs0 [Hs1 [He0 [He1 _]]]]]].
  exists c. split; [exact Hc |].
  apply sweep_and_walls_on_ends; assumption.
Qed.

Lemma cylinderElliptic_vertices_on_ends_witness :
  0 < sampleEPS
  /\ exists g c,
       cylinderElliptic sampleEPS twistedWedge = Return g
       /\ centerOf twistedWedge = JArray c
       /\ Forall (onCylinderEnds c (heightOf twistedWedge)
                    (startRadiusOf twistedWedge) (endRadiusOf twistedWedge))
                 (meshVertices g).
Proof.
  assert (Heps : 0 < sampleEPS) by (unfold sampleEPS; lra).
  split; [exact Heps |].
  destruct twistedWedge_runs as [_ [_ [_ Hrun]]].
  destruct (cylinderElliptic_vertices_on_ends sampleEPS twistedWedge _ Heps Hrun)
    as [c [Hc Hall]].
  eexists; exists c. split; [exact Hrun | split; assumption].
Defined.

(** ** When [ellipsoid] and [sphere] return and what they throw *)

Lemma ellipsoid_return_valid (o : Ellipsoid.options) (g : geom3.t) :
  ellipsoid o = Return g -> exists c r, ellipsoidValid o c r.
Proof.
  intros Hrun. unfold ellipsoid in Hrun.
  fold (ellipsoidCenter o) (ellipsoidRadius o) (ellipsoidSegments o) in Hrun.
  destruct (ellipsoidCenter o) as [| c] eqn:Hc; [discriminate |].
  destruct (List.length c <? 3)%nat eqn:Hlc; [discriminate |].
  destruct (ellipsoidRadius o) as [| r] eqn:Hr; [discriminate |].
  destruct (List.length r <? 3)%nat eqn:Hlr; [discriminate |].
  destruct (ellipsoidSegments o <? 4)%Z eqn:Hs; [discriminate |].
  exists c, r. unfold ellipsoidValid.
  apply Nat.ltb_ge in Hlc, Hlr. apply Z.ltb_ge in Hs.
  rewrite Hc, Hr. repeat split; assumption.
Qed.

Lemma ellipsoid_order (o : Ellipsoid.options) :
  (ellipsoidCenter o = NotArray -> ellipsoid o = Throw "center must be an array")
  /\ (forall c, ellipsoidCenter o = JArray c ->
      ((List.length c < 3)%nat ->
       ellipsoid o = Throw "center must contain X, Y and Z values")
      /\ ((3 <= List.length c)%nat ->
          (ellipsoidRadius o = NotArray ->
           ellipsoid o = Throw "radius must be an array")
          /\ (forall r, ellipsoidRadius o = JArray r ->
              ((List.length r < 3)%nat ->
               ellipsoid o = Throw "radius must contain X, Y and Z values")
              /\ ((3 <= List.length r)%nat -> (ellipsoidSegments o < 4)%Z ->
                  ellipsoid o = Throw "segments must be four or more")))).
Proof.
  unfold ellipsoid.
  fold (ellipsoidCenter o) (ellipsoidRadius o) (ellipsoidSegments o).
  split; [intros ->; reflexivity |].
  intros c ->. split.
  { intros Hlc. apply Nat.ltb_lt in Hlc. rewrite Hlc. reflexivity. }
  intros Hlc. apply Nat.ltb_ge in Hlc. rewrite Hlc.
  split; [intros ->; reflexivity |].
  intros r ->. split.
  { intros Hlr. apply Nat.ltb_lt in Hlr. rewrite Hlr. reflexivity. }
  intros Hlr Hs. apply Nat.ltb_ge in Hlr. apply Z.ltb_lt in Hs.
  rewrite Hlr, Hs. reflexivity.
Qed.

(** X12. [ellipsoid] returns a mesh exactly when center and radius are
    arrays of at least three elements and segments is at least 4: the
    radius components and the axes are not looked at, so zero or negative
    radii are accepted.  Otherwise it throws the message of the first
    check that fails, in the order center, radius, segments, and never
    anything else. *)
Theorem ellipsoid_returns_iff (o : Ellipsoid.options) :
  ((exists g, ellipsoid o = Return g) <-> exists c r, ellipsoidValid o c r)
  /\ (forall message, ellipsoid o = Throw message -> In message ellipsoidMessages)
  /\ (ellipsoidCenter o = NotArray -> ellipsoid o = Throw "center must be an array")
  /\ (forall c, ellipsoidCenter o = JArray c ->
      ((List.length c < 3)%nat ->
       ellipsoid o = Throw "center must contain X, Y and Z values")
      /\ ((3 <= List.length c)%nat ->
          (ellipsoidRadius o = NotArray ->
           ellipsoid o = Throw "radius must be an array")
          /\ (forall r, ellipsoidRadius o = JArray r ->
              ((List.length r < 3)%nat ->
               ellipsoid o = Throw "radius must contain X, Y and Z values")
              /\ ((3 <= List.length r)%nat -> (ellipsoidSegments o < 4)%Z ->
                  ellipsoid o = Throw "segments must be four or more")))).
Proof.
  split; [| split; [exact (ellipsoid_throws o) | exact (ellipsoid_order o)]].
  split.
  - intros [g Hg]. exact (ellipsoid_return_valid o g Hg).
  - intros [c [r Hv]]. eexists. exact (ellipsoid_checked o c r Hv).
Qed.

Lemma ellipsoid_returns_iff_witness :
  ellipsoid {| Ellipsoid.center := Some (JArray [0; 0; 0]);
               Ellipsoid.radius := Some NotArray;
               Ellipsoid.segments := Some 1%Z;
               Ellipsoid.axes := None |}
  = Throw "radius must be an array".
Proof.
  match goal with
  | |- ellipsoid ?o = _ =>
      destruct (ellipsoid_returns_iff o) as [_ [_ [_ Horder]]];
      destruct (Horder [0; 0; 0] eq_refl) as [_ Hradius]
  end.
  apply Hradius; [simpl; lia | reflexivity].
Defined.

(** X13. [sphere] cannot fail on its radius: the scalar is always turned
    into an array of three elements.  It returns a mesh exactly when the
    center is an array of at least three elements and segments is at least
    4, and its only errors are the two of the center and the one of the
    segments. *)
Theorem sphere_returns_iff (o : Sphere.options) :
  ((exists g, sphere o = Return g)
   <-> (exists c, sphereCenter o = JArray c /\ (3 <= List.length c)%nat)
       /\ (4 <= sphereSegments o)%Z)
  /\ (forall message,
        sphere o = Throw message ->
        In message [ "center must be an array"%string;
                     "center must contain X, Y and Z values"%string;
                     "segments must be four or more"%string ]).
Proof.
  unfold sphere.
  fold (sphereCenter o) (sphereRadius o) (sphereSegments o) (sphereAxes o).
  set (o' := {| Ellipsoid.center := Some (sphereCenter o);
                Ellipsoid.radius :=
                  Some (JArray [sphereRadius o; sphereRadius o; sphereRadius o]);
                Ellipsoid.segments := Some (sphereSegments o);
                Ellipsoid.axes := Some (sphereAxes o) |}).
  split.
  - split.
    + intros [g Hg].
      destruct (ellipsoid_return_valid o' g Hg) as [c [r [Hc [Hlc [_ [_ Hs]]]]]].
      split; [exists c; split; assumption | exact Hs].
    + intros [[c [Hc Hlc]] Hs]. eexists.
      apply (ellipsoid_checked o' c [sphereRadius o; sphereRadius o; sphereRadius o]).
      unfold ellipsoidValid.
      repeat split; try assumption; try reflexivity; simpl; lia.
  - intros message Hthrow.
    destruct (ellipsoid_order o') as [Hna Horder].
    destruct (sphereCenter o) as [| c] eqn:Hc.
    { rewrite (Hna eq_refl) in Hthrow. injection Hthrow as <-. simpl; tauto. }
    destruct (Horder c eq_refl) as [Hshort Hlong].
    destruct (Nat.lt_ge_cases (List.length c) 3) as [Hlc | Hlc].
    { rewrite (Hshort Hlc) in Hthrow. injection Hthrow as <-. simpl; tauto. }
    destruct (Hlong Hlc) as [_ Hradius].
    destruct (Hradius [sphereRadius o; sphereRadius o; sphereRadius o] eq_refl)
      as [_ Hseg].
    destruct (Z.lt_ge_cases (sphereSegments o) 4) as [Hs | Hs].
    { rewrite (Hseg ltac:(simpl; lia) Hs) in Hthrow.
      injection Hthrow as <-. simpl; tauto. }
    rewrite (ellipsoid_checked o' c
               [sphereRadius o; sphereRadius o; sphereRadius o]) in Hthrow;
      [discriminate |].
    unfold ellipsoidValid.
    repeat split; try assumption; try reflexivity; simpl; lia.
Qed.

Lemma cylinderElliptic_returns_iff_witness :
  exists g, cylinderElliptic sampleEPS defaultCylinder = Return g.
Proof.
  pose proof two_pi_bounds as Hpi.
  apply (cylinderElliptic_returns_iff sampleEPS defaultCylinder).
  split.
  - apply fieldsValid_defaults; try reflexivity;
      unfold startRadiusOf, endRadiusOf, startAngleOf, endAngleOf, segmentsOf;
      simpl; try lra; lia.
  - replace (rotationOf defaultCylinder) with (PI * 2); [apply full_turn_passes |].
    symmetry. apply rotation_full.
    unfold normalizedStart, normalizedEnd, startAngleOf, endAngleOf; simpl.
    rewrite rem_small, rem_self by lra. reflexivity.
Defined.

Lemma sphere_returns_iff_witness :
  exists g, sphere defaultSphere = Return g.
Proof.
  apply (sphere_returns_iff defaultSphere).
  split; [exists [0; 0; 0]; split; [reflexivity | simpl; lia] |].
  unfold sphereSegments; simpl; lia.
Defined.

(** ** Where the vertices of the ellipsoid lie *)

Lemma surfacePoint_combination center segments qsegments xv yv zv
  (sign : R) (corner : nat * nat) :
  unitCombination center xv yv zv
    (surfacePoint center segments qsegments xv yv zv sign corner).
Proof.
  unfold unitCombination, surfacePoint, cylinderPointAt; cbv zeta.
  set (p := sign * pitchAt qsegments (snd corner)).
  set (a := PI * 2 * INR (fst corner) / IZR segments).
  exists (cos p * cos a), (cos p * sin a), (sin p). split.
  - pose proof (sin2_cos2 p) as Hp. pose proof (sin2_cos2 a) as Ha.
    unfold Rsqr in Hp, Ha. nra.
  - unfold vec3.add, vec3.scale; simpl. apply vec3_eq; ring.
Qed.

Lemma allPatches_vertices (P : vec3.t -> Prop) center segments qsegments xv yv zv :
  (forall sign corner,
     P (surfacePoint center segments qsegments xv yv zv sign corner)) ->
  Forall P (flat_map poly3.vertices
              (allPatches center segments qsegments xv yv zv)).
Proof.
  intros H. apply Forall_forall. intros v Hin.
  apply in_flat_map in Hin as [p [Hp Hv]].
  unfold allPatches in Hp.
  apply in_flat_map in Hp as [slice1 [_ Hp]].
  apply in_flat_map in Hp as [slice2 [_ Hp]].
  destruct Hp as [<- | [<- | []]].
  - unfold lowerPatch in Hv; cbn [poly3.vertices poly3.fromPoints] in Hv.
    apply in_map_iff in Hv as [corner [<- _]]. apply H.
  - unfold upperPatch in Hv; cbn [poly3.vertices poly3.fromPoints] in Hv.
    apply in_rev, in_map_iff in Hv as [corner [<- _]]. apply H.
Qed.

(** X14. Every vertex of an ellipsoid mesh is the center plus a combination
    of the three frame vectors (the axes, normalized and scaled by the
    radii) whose coefficients lie on the unit sphere.  This holds for any
    axes and any radii. *)
Theorem ellipsoid_vertices_on_surface (o : Ellipsoid.options) (c r : list R)
  (g : geom3.t) :
  ellipsoidValid o c r ->
  ellipsoid o = Return g ->
  Forall (unitCombination (vec3.ofArray c)
            (xvectorOf o r) (yvectorOf o r) (zvectorOf o r))
         (meshVertices g).
Proof.
  intros Hv Hrun. rewrite (ellipsoid_checked o c r Hv) in Hrun.
  injection Hrun as <-. unfold meshVertices. cbn [geom3.polygons geom3.create].
  apply allPatches_vertices. intros sign corner. apply surfacePoint_combination.
Qed.

Lemma defaultEllipsoid_returns :
  ellipsoid defaultEllipsoid
  = Return (geom3.create
      (allPatches (vec3.ofArray [0; 0; 0]) (ellipsoidSegments defaultEllipsoid)
         (qsegmentsOf defaultEllipsoid)
         (xvectorOf defaultEllipsoid [1; 1; 1])
         (yvectorOf defaultEllipsoid [1; 1; 1])
         (zvectorOf defaultEllipsoid [1; 1; 1]))).
Proof. exact (ellipsoid_checked _ _ _ ellipsoidValid_default). Qed.

Lemma ellipsoid_vertices_on_surface_witness :
  ellipsoidValid defaultEllipsoid [0; 0; 0] [1; 1; 1]
  /\ exists g,
       ellipsoid defaultEllipsoid = Return g
       /\ Forall (unitCombination (vec3.ofArray [0; 0; 0])
                    (xvectorOf defaultEllipsoid [1; 1; 1])
                    (yvectorOf defaultEllipsoid [1; 1; 1])
                    (zvectorOf defaultEllipsoid [1; 1; 1]))
                 (meshVertices g).
Proof.
  split; [exact ellipsoidValid_default |].
  eexists. split; [exact defaultEllipsoid_returns |].
  exact (ellipsoid_vertices_on_surface defaultEllipsoid [0; 0; 0] [1; 1; 1] _
           ellipsoidValid_default defaultEllipsoid_returns).
Defined.

(** The default axes are unit vectors. *)
Lemma unit_defaultAxes :
  vec3.unit (fst (fst defaultAxes)) = vec3.fromValues 1 0 0
  /\ vec3.unit (snd (fst defaultAxes)) = vec3.fromValues 0 (-1) 0
  /\ vec3.unit (snd defaultAxes) = vec3.fromValues 0 0 1.
Proof.
  unfold defaultAxes; cbn [fst snd].
  unfold vec3.unit, vec3.length, vec3.dot; simpl.
  replace (1 * 1 + 0 * 0 + 0 * 0) with 1 by ring.
  replace (0 * 0 + -1 * -1 + 0 * 0) with 1 by ring.
  replace (0 * 0 + 0 * 0 + 1 * 1) with 1 by ring.
  rewrite sqrt_1. repeat split; apply vec3_eq; field.
Qed.

Lemma surfacePoint_default_axes (c : list R) segments qsegments (r0 r1 r2 : R)
  (sign : R) (corner : nat * nat) :
  exists a b d : R,
    a ^ 2 + b ^ 2 + d ^ 2 = 1
    /\ surfacePoint (vec3.ofArray c) segments qsegments
         (vec3.scale r0 (vec3.fromValues 1 0 0))
         (vec3.scale r1 (vec3.fromValues 0 (-1) 0))
         (vec3.scale r2 (vec3.fromValues 0 0 1)) sign corner
       = vec3.fromValues (nth 0 c 0 + r0 * a) (nth 1 c 0 + r1 * b)
                         (nth 2 c 0 + r2 * d).
Proof.
  destruct (surfacePoint_combination (vec3.ofArray c) segments qsegments
              (vec3.scale r0 (vec3.fromValues 1 0 0))
              (vec3.scale r1 (vec3.fromValues 0 (-1) 0))
              (vec3.scale r2 (vec3.fromValues 0 0 1)) sign corner)
    as [a [b [d [Hunit ->]]]].
  exists a, (- b), d. split; [nra |].
  unfold vec3.add, vec3.scale, vec3.ofArray; simpl. apply vec3_eq; ring.
Qed.

(** X15. With the default axes and three radii that are not zero, every
    vertex of the mesh satisfies the equation of the ellipsoid:
    ((x - cx)/rx)² + ((y - cy)/ry)² + ((z - cz)/rz)² = 1. *)
Theorem ellipsoid_vertices_on_ellipsoid (o : Ellipsoid.options) (c r : list R)
  (g : geom3.t) :
  ellipsoidValid o c r ->
  ellipsoidAxes o = defaultAxes ->
  nth 0 r 0 <> 0 -> nth 1 r 0 <> 0 -> nth 2 r 0 <> 0 ->
  ellipsoid o = Return g ->
  Forall (onEllipsoid c r) (meshVertices g).
Proof.
  intros Hv Haxes H0 H1 H2 Hrun. rewrite (ellipsoid_checked o c r Hv) in Hrun.
  injection Hrun as <-. unfold meshVertices. cbn [geom3.polygons geom3.create].
  unfold xvectorOf, yvectorOf, zvectorOf. rewrite Haxes.
  destruct unit_defaultAxes as [-> [-> ->]].
  apply allPatches_vertices. intros sign corner.
  destruct (surfacePoint_default_axes c (ellipsoidSegments o) (qsegmentsOf o)
              (nth 0 r 0) (nth 1 r 0) (nth 2 r 0) sign corner)
    as [a [b [d [Hunit ->]]]].
  unfold onEllipsoid; cbn [vec3.x vec3.y vec3.z].
  replace ((nth 0 c 0 + nth 0 r 0 * a - nth 0 c 0) / nth 0 r 0) with a
    by (field; assumption).
  replace ((nth 1 c 0 + nth 1 r 0 * b - nth 1 c 0) / nth 1 r 0) with b
    by (field; assumption).
  replace ((nth 2 c 0 + nth 2 r 0 * d - nth 2 c 0) / nth 2 r 0) with d
    by (field; assumption).
  exact Hunit.
Qed.

Lemma ellipsoid_vertices_on_ellipsoid_witness :
  ellipsoidValid defaultEllipsoid [0; 0; 0] [1; 1; 1]
  /\ exists g,
       ellipsoid defaultEllipsoid = Return g
       /\ Forall (onEllipsoid [0; 0; 0] [1; 1; 1]) (meshVertices g).
Proof.
  split; [exact ellipsoidValid_default |].
  eexists. split; [exact defaultEllipsoid_returns |].
  apply (ellipsoid_vertices_on_ellipsoid defaultEllipsoid [0; 0; 0] [1; 1; 1] _
           ellipsoidValid_default);
    [reflexivity | simpl; lra | simpl; lra | simpl; lra
    | exact defaultEllipsoid_returns].
Defined.

(** X16. With the default axes, every vertex of a sphere mesh is at the
    distance of the radius from the center: the square of its distance is
    the square of the radius, for every radius, zero or negative too. *)
Theorem sphere_vertices_at_radius (o : Sphere.options) (c : list R) (g : geom3.t) :
  sphereCenter o = JArray c ->
  sphereAxes o = defaultAxes ->
  sphere o = Return g ->
  Forall (fun v =>
            vec3.dot (vec3.subtract v (vec3.ofArray c))
                     (vec3.subtract v (vec3.ofArray c))
            = sphereRadius o ^ 2)
         (meshVertices g).
Proof.
  intros Hc Haxes Hrun. unfold sphere in Hrun.
  fold (sphereCenter o) (sphereRadius o) (sphereSegments o) (sphereAxes o) in Hrun.
  set (rr := sphereRadius o) in *.
  destruct (ellipsoid_return_valid _ g Hrun) as [c' [r' Hv]].
  pose proof Hv as [Hc' [_ [Hr' _]]].
  unfold ellipsoidCenter, ellipsoidRadius in Hc', Hr'; cbn in Hc', Hr'.
  rewrite Hc in Hc'. injection Hc' as <-. injection Hr' as <-.
  rewrite (ellipsoid_checked _ c [rr; rr; rr] Hv) in Hrun.
  injection Hrun as <-. unfold meshVertices. cbn [geom3.polygons geom3.create].
  unfold xvectorOf, yvectorOf, zvectorOf, ellipsoidAxes.
  cbn [Ellipsoid.axes assign nth]. rewrite Haxes.
  destruct unit_defaultAxes as [-> [-> ->]].
  apply allPatches_vertices. intros sign corner.
  match goal with
  | |- context [surfacePoint _ ?n ?q _ _ _ _ _] =>
      destruct (surfacePoint_default_axes c n q rr rr rr sign corner)
        as [a [b [d [Hunit ->]]]]
  end.
  unfold vec3.dot, vec3.subtract, vec3.ofArray; cbn [vec3.x vec3.y vec3.z].
  replace (rr ^ 2) with (rr ^ 2 * (a ^ 2 + b ^ 2 + d ^ 2))
    by (rewrite Hunit; ring).
  ring.
Qed.

Lemma sphere_vertices_at_radius_witness :
  exists g,
    sphere defaultSphere = Return g
    /\ Forall (fun v =>
                 vec3.dot (vec3.subtract v (vec3.ofArray [0; 0; 0]))
                          (vec3.subtract v (vec3.ofArray [0; 0; 0]))
                 = sphereRadius defaultSphere ^ 2)
              (meshVertices g).
Proof.
  assert (Hg : exists g, sphere defaultSphere = Return g).
  { eexists. unfold sphere.
    apply (ellipsoid_checked _ [0; 0; 0] [1; 1; 1]).
    unfold ellipsoidValid, ellipsoidCenter, ellipsoidRadius, ellipsoidSegments.
    cbn. repeat split; try reflexivity; lia. }
  destruct Hg as [g Hg]. exists g. split; [exact Hg |].
  apply (sphere_vertices_at_radius defaultSphere [0; 0; 0] g);
    [reflexivity | reflexivity | exact Hg].
Defined.

(** ** Triangles and quads of the ellipsoid *)

Lemma round_quarter (n : Z) : Num.round (IZR n / 4) = ((n + 2) / 4)%Z.
Proof.
  unfold Num.round. apply Zfloor_eq.
  pose proof (Z.div_mod (n + 2) 4 ltac:(lia)) as Hdm.
  pose proof (Z.mod_pos_bound (n + 2) 4 ltac:(lia)) as [Hm0 Hm1].
  assert (Hn : IZR n = 4 * IZR ((n + 2) / 4) + IZR ((n + 2) mod 4) - 2).
  { replace n with (4 * ((n + 2) / 4) + (n + 2) mod 4 - 2)%Z at 1 by lia.
    rewrite minus_IZR, plus_IZR, mult_IZR. reflexivity. }
  apply IZR_le in Hm0. apply IZR_lt in Hm1. lra.
Qed.

Lemma flat_map_length_const_in {A B : Type} (f : A -> list B) (l : list A) (n : nat) :
  (forall a, In a l -> List.length (f a) = n) ->
  List.length (flat_map f l) = (List.length l * n)%nat.
Proof.
  intros H. induction l as [| a l IH]; cbn [flat_map List.length]; [reflexivity |].
  rewrite length_app, (H a) by (left; reflexivity).
  rewrite IH by (intros b Hb; apply H; right; exact Hb). lia.
Qed.

Section PatchShapes.

Variables (center : vec3.t) (segments qsegments : Z).
Variables (xv yv zv : vec3.t).
Hypothesis qsegments_pos : (1 <= qsegments)%Z.

Let cellOf (slice1 slice2 : nat) : list poly3.t :=
  [ lowerPatch center segments qsegments xv yv zv slice1 slice2;
    upperPatch center segments qsegments xv yv zv slice1 slice2 ].

Lemma cell_quads (slice1 slice2 : nat) :
  (Z.of_nat slice2 < qsegments)%Z ->
  withVertices 4 (cellOf slice1 slice2) = cellOf slice1 slice2
  /\ withVertices 3 (cellOf slice1 slice2) = [].
Proof.
  intros Hlt. apply Z.ltb_lt in Hlt.
  unfold withVertices, cellOf, lowerPatch, upperPatch, cellCorners.
  cbn [filter poly3.vertices poly3.fromPoints].
  rewrite length_rev, !length_map, Hlt. split; reflexivity.
Qed.

Lemma cell_triangles (slice1 slice2 : nat) :
  (qsegments <= Z.of_nat slice2)%Z ->
  withVertices 3 (cellOf slice1 slice2) = cellOf slice1 slice2
  /\ withVertices 4 (cellOf slice1 slice2) = [].
Proof.
  intros Hge. apply Z.ltb_ge in Hge.
  unfold withVertices, cellOf, lowerPatch, upperPatch, cellCorners.
  cbn [filter poly3.vertices poly3.fromPoints].
  rewrite length_rev, !length_map, Hge. split; reflexivity.
Qed.

Lemma seq_last (n : nat) :
  (1 <= n)%nat -> seq 1 n = seq 1 (n - 1) ++ [n].
Proof.
  intros Hn. destruct n as [| m]; [lia |].
  replace (S m - 1)%nat with m by lia.
  replace (S m) with (m + 1)%nat at 1 by lia.
  rewrite seq_app. reflexivity.
Qed.

Lemma withVertices_flat_map {A : Type} (k : nat) (f : A -> list poly3.t)
  (l : list A) :
  withVertices k (flat_map f l) = flat_map (fun a => withVertices k (f a)) l.
Proof. unfold withVertices. apply filter_flat_map. Qed.

Lemma row_shapes (slice1 : nat) :
  List.length (withVertices 3
     (flat_map (cellOf slice1) (seq 1 (Z.to_nat qsegments)))) = 2%nat
  /\ List.length (withVertices 4
       (flat_map (cellOf slice1) (seq 1 (Z.to_nat qsegments))))
     = (2 * (Z.to_nat qsegments - 1))%nat.
Proof.
  rewrite !withVertices_flat_map, seq_last, !flat_map_app, !length_app by lia.
  cbn [flat_map]. rewrite !app_nil_r.
  destruct (cell_triangles slice1 (Z.to_nat qsegments)) as [-> ->]; [lia |].
  rewrite (flat_map_length_const_in _ _ 0%nat).
  2:{ intros s2 Hin. apply in_seq in Hin.
      destruct (cell_quads slice1 s2) as [_ ->]; [lia | reflexivity]. }
  rewrite (flat_map_length_const_in _ _ 2%nat).
  2:{ intros s2 Hin. apply in_seq in Hin.
      destruct (cell_quads slice1 s2) as [-> _]; [lia | reflexivity]. }
  rewrite length_seq. unfold cellOf. cbn [List.length]. split; lia.
Qed.

Lemma allPatches_shapes :
  List.length (withVertices 3 (allPatches center segments qsegments xv yv zv))
  = (2 * Z.to_nat segments)%nat
  /\ List.length (withVertices 4 (allPatches center segments qsegments xv yv zv))
     = (2 * Z.to_nat segments * (Z.to_nat qsegments - 1))%nat.
Proof.
  unfold allPatches. fold cellOf.
  rewrite !withVertices_flat_map.
  rewrite (flat_map_length_const _ _ 2%nat)
    by (intros slice1; apply row_shapes).
  rewrite (flat_map_length_const _ _ (2 * (Z.to_nat qsegments - 1))%nat)
    by (intros slice1; apply row_shapes).
  rewrite length_seq. split; lia.
Qed.

End PatchShapes.

(** X17. The latitude count of [ellipsoid] is (segments + 2) div 4, and a
    returned mesh has exactly 2·segments triangles, the two rows at the
    poles, and 2·segments·(qsegments − 1) quads. *)
Theorem ellipsoid_triangles_and_quads (o : Ellipsoid.options) (c r : list R)
  (g : geom3.t) :
  ellipsoidValid o c r ->
  ellipsoid o = Return g ->
  qsegmentsOf o = ((ellipsoidSegments o + 2) / 4)%Z
  /\ List.length (withVertices 3 (geom3.polygons g))
     = (2 * Z.to_nat (ellipsoidSegments o))%nat
  /\ List.length (withVertices 4 (geom3.polygons g))
     = (2 * Z.to_nat (ellipsoidSegments o) * (Z.to_nat (qsegmentsOf o) - 1))%nat.
Proof.
  intros Hv Hrun. rewrite (ellipsoid_checked o c r Hv) in Hrun.
  injection Hrun as <-. cbn [geom3.polygons geom3.create].
  split; [apply round_quarter |].
  apply allPatches_shapes.
  destruct Hv as [_ [_ [_ [_ Hseg]]]]. apply qsegments_pos. exact Hseg.
Qed.

Lemma ellipsoid_triangles_and_quads_witness :
  ellipsoidValid defaultEllipsoid [0; 0; 0] [1; 1; 1]
  /\ exists g,
       ellipsoid defaultEllipsoid = Return g
       /\ List.length (withVertices 3 (geom3.polygons g))
          = (2 * Z.to_nat (ellipsoidSegments defaultEllipsoid))%nat.
Proof.
  split; [exact ellipsoidValid_default |].
  eexists. split; [exact defaultEllipsoid_returns |].
  apply (ellipsoid_triangles_and_quads defaultEllipsoid [0; 0; 0] [1; 1; 1] _
           ellipsoidValid_default defaultEllipsoid_returns).
Defined.

(** ** Moving the center of the ellipsoid *)

Lemma surfacePoint_moved (c c' : list R) segments qsegments xv yv zv
  (sign : R) (corner : nat * nat) :
  surfacePoint (vec3.ofArray c') segments qsegments xv yv zv sign corner
  = vec3.add (surfacePoint (vec3.ofArray c) segments qsegments xv yv zv sign corner)
             (vec3.subtract (vec3.ofArray c') (vec3.ofArray c)).
Proof.
  unfold surfacePoint, vec3.add, vec3.subtract; simpl. apply vec3_eq; ring.
Qed.

Lemma allPatches_moved (c c' : list R) segments qsegments xv yv zv :
  allPatches (vec3.ofArray c') segments qsegments xv yv zv
  = map (translatePolygon (vec3.subtract (vec3.ofArray c') (vec3.ofArray c)))
        (allPatches (vec3.ofArray c) segments qsegments xv yv zv).
Proof.
  unfold allPatches. rewrite map_flat_map.
  apply flat_map_ext. intros slice1. rewrite map_flat_map.
  apply flat_map_ext. intros slice2. cbn [map].
  unfold lowerPatch, upperPatch, translatePolygon, poly3.fromPoints;
    cbn [poly3.vertices].
  assert (Hmap : forall corners,
            map (surfacePoint (vec3.ofArray c') segments qsegments xv yv zv (-1))
                corners
            = map (fun v => vec3.add v
                     (vec3.subtract (vec3.ofArray c') (vec3.ofArray c)))
                (map (surfacePoint (vec3.ofArray c) segments qsegments xv yv zv (-1))
                     corners)).
  { intros corners. rewrite map_map. apply map_ext. intros corner.
    apply surfacePoint_moved. }
  assert (Hmap' : forall corners,
            map (surfacePoint (vec3.ofArray c') segments qsegments xv yv zv 1)
                corners
            = map (fun v => vec3.add v
                     (vec3.subtract (vec3.ofArray c') (vec3.ofArray c)))
                (map (surfacePoint (vec3.ofArray c) segments qsegments xv yv zv 1)
                     corners)).
  { intros corners. rewrite map_map. apply map_ext. intros corner.
    apply surfacePoint_moved. }
  rewrite map_rev, <- Hmap, <- Hmap'. reflexivity.
Qed.

(** X18. The center only moves the ellipsoid: with another center of at
    least three elements and every other field the same, [ellipsoid]
    returns the same mesh moved by the difference of the two centers. *)
Theorem ellipsoid_center_moves (o : Ellipsoid.options) (c c' r : list R)
  (g : geom3.t) :
  ellipsoidValid o c r -> (3 <= List.length c')%nat ->
  ellipsoid o = Return g ->
  ellipsoid (withEllipsoidCenter c' o)
  = Return (translateMesh (vec3.subtract (vec3.ofArray c') (vec3.ofArray c)) g).
Proof.
  intros Hv Hlen' Hrun.
  assert (Hv' : ellipsoidValid (withEllipsoidCenter c' o) c' r).
  { destruct Hv as [_ [_ Hrest]]. split; [reflexivity |]. split; assumption. }
  rewrite (ellipsoid_checked o c r Hv) in Hrun. injection Hrun as <-.
  rewrite (ellipsoid_checked _ c' r Hv').
  unfold translateMesh. cbn [geom3.polygons geom3.create].
  do 2 f_equal. apply allPatches_moved.
Qed.

Lemma ellipsoid_center_moves_witness :
  ellipsoidValid defaultEllipsoid [0; 0; 0] [1; 1; 1]
  /\ exists g,
       ellipsoid defaultEllipsoid = Return g
       /\ ellipsoid (withEllipsoidCenter [5; 5; 5] defaultEllipsoid)
          = Return (translateMesh
                      (vec3.subtract (vec3.ofArray [5; 5; 5])
                                     (vec3.ofArray [0; 0; 0])) g).
Proof.
  split; [exact ellipsoidValid_default |].
  eexists. split; [exact defaultEllipsoid_returns |].
  apply (ellipsoid_center_moves defaultEllipsoid [0; 0; 0] [5; 5; 5] [1; 1; 1] _
           ellipsoidValid_default);
    [simpl; lia | exact defaultEllipsoid_returns].
Defined.

(** ** The circular cylinder *)

Lemma circle_of_ellipse (cx cy r : R) (v : vec3.t) :
  0 < r -> onEllipse cx cy (r, r) v ->
  (vec3.x v - cx) ^ 2 + (vec3.y v - cy) ^ 2 = r ^ 2.
Proof.
  unfold onEllipse; cbn [fst snd]. intros Hr H.
  replace ((vec3.x v - cx) ^ 2 + (vec3.y v - cy) ^ 2)
    with (r ^ 2 * (((vec3.x v - cx) / r) ^ 2 + ((vec3.y v - cy) / r) ^ 2))
    by (field; lra).
  rewrite H. ring.
Qed.

(** X19. Every vertex of a mesh returned by [cylinder] lies in the plane of
    one of the two ends, and there on the axis or on the circle of the
    radius of that end around the axis: startRadius below, endRadius
    above. *)
Theorem cylinder_vertices_on_circles (EPS : R) (o : Cylinder.options)
  (g : geom3.t) :
  0 < EPS ->
  cylinder EPS o = Return g ->
  exists c,
    cylinderCenter o = JArray c
    /\ Forall (onCircularEnds c (cylinderHeight o) (cylinderStartRadius o)
                 (cylinderEndRadius o))
              (meshVertices g).
Proof.
  intros Heps Hrun. unfold cylinder in Hrun.
  fold (cylinderCenter o) (cylinderHeight o) (cylinderStartRadius o)
       (cylinderEndRadius o) in Hrun.
  match type of Hrun with
  | cylinderElliptic _ ?o' = _ => set (e := o') in Hrun
  end.
  destruct (cylinderElliptic_return_valid EPS e g Hrun) as [Hv Hrot].
  destruct (cylinderElliptic_valid EPS e Heps Hv Hrot) as [c [Hc [_ Hmesh]]].
  rewrite Hmesh in Hrun. injection Hrun as <-.
  destruct Hv as [_ [_ [Hs0 [Hs1 [He0 [He1 _]]]]]].
  exists c. split; [exact Hc |].
  pose proof (sweep_and_walls_on_ends e c Hs0 Hs1 He0 He1) as Hall.
  eapply Forall_impl; [| exact Hall].
  intros v Hon. unfold onCircularEnds; cbv zeta.
  change (heightOf e) with (cylinderHeight o) in Hon.
  change (startRadiusOf e) with (cylinderStartRadius o, cylinderStartRadius o) in Hon.
  change (endRadiusOf e) with (cylinderEndRadius o, cylinderEndRadius o) in Hon.
  change (fst (startRadiusOf e)) with (cylinderStartRadius o) in Hs0.
  change (fst (endRadiusOf e)) with (cylinderEndRadius o) in He0.
  destruct Hon as [[Hz [[Hx Hy] | Hell]] | [Hz [[Hx Hy] | Hell]]].
  - left. split; [exact Hz |]. left. rewrite Hx, Hy. ring.
  - left. split; [exact Hz |]. right. apply circle_of_ellipse; assumption.
  - right. split; [exact Hz |]. left. rewrite Hx, Hy. ring.
  - right. split; [exact Hz |]. right. apply circle_of_ellipse; assumption.
Qed.

Lemma cylinder_vertices_on_circles_witness :
  0 < sampleEPS
  /\ exists g c,
       cylinder sampleEPS fourSegmentCylinder = Return g
       /\ cylinderCenter fourSegmentCylinder = JArray c
       /\ Forall (onCircularEnds c (cylinderHeight fourSegmentCylinder)
                    (cylinderStartRadius fourSegmentCylinder)
                    (cylinderEndRadius fourSegmentCylinder))
                 (meshVertices g).
Proof.
  assert (Heps : 0 < sampleEPS) by (unfold sampleEPS; lra).
  split; [exact Heps |].
  destruct (four_segment_cylinder_shape sampleEPS) as [g [Hg _]].
  { unfold sampleEPS; lra. }
  destruct (cylinder_vertices_on_circles sampleEPS fourSegmentCylinder g Heps Hg)
    as [c [Hc Hall]].
  exists g, c. split; [exact Hg | split; assumption].
Defined.

(** ** Every edge of a sweep of at least one slice has its reverse *)

(** Finds an edge in a list that is written out. *)
Ltac in_list :=
  cbn [In equalSliceEdges mixedSliceEdges wallEdges leftEdges rightEdges];
  repeat (first [left; reflexivity | right]).

Section SweepPairing.

Variables (s e : vec3.t) (a b : nat -> vec3.t).

Lemma equalSliceEdges_pair : pairsLocally s e a b (equalSliceEdges s e a b).
Proof.
  split; [| split].
  - intros i x y Hin. cbn [In equalSliceEdges] in Hin.
    repeat (destruct Hin as [Heq | Hin]; [injection Heq as <- <- |]);
      try contradiction.
    + right; right. split; [intros ->; in_list | intros j ->; in_list].
    + left; in_list.
    + right; left. split; in_list.
    + left; in_list.
    + right; right. split; [intros ->; in_list | intros j ->; in_list].
    + left; in_list.
    + right; left. split; in_list.
    + right; left. split; in_list.
    + left; in_list.
    + right; right. split; [intros ->; in_list | intros j ->; in_list].
  - intros x Hin. cbn [In leftEdges] in Hin.
    repeat (destruct Hin as [<- | Hin]; [in_list |]). contradiction.
  - intros m x Hin. cbn [In rightEdges] in Hin.
    repeat (destruct Hin as [<- | Hin]; [in_list |]). contradiction.
Qed.

Lemma mixedSliceEdges_pair : pairsLocally s e a b (mixedSliceEdges s e a b).
Proof.
  split; [| split].
  - intros i x y Hin. cbn [In mixedSliceEdges] in Hin.
    repeat (destruct Hin as [Heq | Hin]; [injection Heq as <- <- |]);
      try contradiction.
    + right; right. split; [intros ->; in_list | intros j ->; in_list].
    + left; in_list.
    + right; left. split; in_list.
    + right; right. split; [intros ->; in_list | intros j ->; in_list].
    + left; in_list.
    + left; in_list.
    + right; left. split; in_list.
    + left; in_list.
    + right; right. split; [intros ->; in_list | intros j ->; in_list].
    + left; in_list.
    + right; left. split; in_list.
    + left; in_list.
  - intros x Hin. cbn [In leftEdges] in Hin.
    repeat (destruct Hin as [<- | Hin]; [in_list |]). contradiction.
  - intros m x Hin. cbn [In rightEdges] in Hin.
    repeat (destruct Hin as [<- | Hin]; [in_list |]). contradiction.
Qed.

Variable edges : nat -> list (vec3.t * vec3.t).
Hypothesis edges_pair : pairsLocally s e a b edges.
Variable n : nat.
Hypothesis n_pos : (1 <= n)%nat.

Lemma in_slices (i : nat) (x : vec3.t * vec3.t) :
  (i < n)%nat -> In x (edges i) -> In x (flat_map edges (seq 0 n)).
Proof.
  intros Hi Hin. apply in_flat_map. exists i. split; [apply in_seq; lia | exact Hin].
Qed.

Lemma left_in_slices (x : vec3.t * vec3.t) :
  In x (leftEdges s e a b) -> In x (flat_map edges (seq 0 n)).
Proof.
  intros Hin. apply (in_slices 0); [lia |].
  destruct edges_pair as [_ [Hleft _]]. apply Hleft, Hin.
Qed.

Lemma right_in_slices (x : vec3.t * vec3.t) :
  In x (rightEdges s e a b n) -> In x (flat_map edges (seq 0 n)).
Proof.
  intros Hin. assert (Hn : n = S (n - 1)%nat) by lia.
  apply (in_slices (n - 1)%nat); [lia |].
  destruct edges_pair as [_ [_ Hright]]. apply (Hright (n - 1)%nat).
  rewrite <- Hn. exact Hin.
Qed.

(** A full turn: the last boundary is the first one. *)
Lemma full_turn_pairs :
  a n = a 0%nat -> b n = b 0%nat ->
  forall x y, In (x, y) (flat_map edges (seq 0 n)) ->
              In (y, x) (flat_map edges (seq 0 n)).
Proof.
  intros Ha Hb x y Hin.
  apply in_flat_map in Hin as [i [Hi Hin]]. apply in_seq in Hi.
  destruct edges_pair as [Hlocal _].
  destruct (Hlocal i x y Hin) as [Hsame | [[Hnext Hright] | [Hleft Hprev]]].
  - apply (in_slices i); [lia | exact Hsame].
  - destruct (Nat.eq_dec (S i) n) as [Hlast | Hmore].
    + rewrite Hlast in Hright. apply left_in_slices.
      cbn [In rightEdges] in Hright. rewrite Ha, Hb in Hright.
      repeat (destruct Hright as [Heq | Hright];
              [injection Heq as <- <-; in_list |]).
      contradiction.
    + apply (in_slices (S i)); [lia | exact Hnext].
  - destruct i as [| j].
    + specialize (Hleft eq_refl). apply right_in_slices.
      cbn [In leftEdges] in Hleft.
      cbn [In rightEdges]. rewrite Ha, Hb.
      repeat (destruct Hleft as [Heq | Hleft];
              [injection Heq as <- <-;
               repeat (first [left; reflexivity | right]) |]).
      contradiction.
    + apply (in_slices j); [lia | exact (Hprev j eq_refl)].
Qed.

(** A partial sweep: the walls close the two ends. *)
Lemma partial_sweep_pairs :
  forall x y,
    In (x, y) (flat_map edges (seq 0 n) ++ wallEdges s e a b n) ->
    In (y, x) (flat_map edges (seq 0 n) ++ wallEdges s e a b n).
Proof.
  intros x y Hin. apply in_app_or in Hin as [Hin | Hin].
  - apply in_flat_map in Hin as [i [Hi Hin]]. apply in_seq in Hi.
    destruct edges_pair as [Hlocal _].
    destruct (Hlocal i x y Hin) as [Hsame | [[Hnext Hright] | [Hleft Hprev]]].
    + apply in_or_app; left. apply (in_slices i); [lia | exact Hsame].
    + destruct (Nat.eq_dec (S i) n) as [Hlast | Hmore].
      * rewrite Hlast in Hright. apply in_or_app; right.
        cbn [In rightEdges] in Hright.
        repeat (destruct Hright as [Heq | Hright];
                [injection Heq as <- <-; in_list |]).
        contradiction.
      * apply in_or_app; left. apply (in_slices (S i)); [lia | exact Hnext].
    + destruct i as [| j].
      * specialize (Hleft eq_refl). apply in_or_app; right.
        cbn [In leftEdges] in Hleft.
        repeat (destruct Hleft as [Heq | Hleft];
                [injection Heq as <- <-; in_list |]).
        contradiction.
      * apply in_or_app; left.
        apply (in_slices j); [lia | exact (Hprev j eq_refl)].
  - cbn [In wallEdges] in Hin.
    repeat (destruct Hin as [Heq | Hin];
            [injection Heq as <- <-;
             first [ apply in_or_app; right; solve [in_list]
                   | apply in_or_app; left; apply left_in_slices; solve [in_list]
                   | apply in_or_app; left; apply right_in_slices; solve [in_list] ]
            |]).
    contradiction.
Qed.

End SweepPairing.

Lemma flat_map_flat_map {A B C : Type} (f : B -> list C) (g : A -> list B)
  (l : list A) :
  flat_map f (flat_map g l) = flat_map (fun x => flat_map f (g x)) l.
Proof.
  induction l as [| x l IH]; cbn [flat_map]; [reflexivity |].
  rewrite flat_map_app, IH. reflexivity.
Qed.

Section SweepMeshEdges.

Variables (c : list R) (sr er : R * R) (sa rot : R) (slices : Z).
Variables (start end_ ray aX aY : vec3.t).
Hypothesis slices_pos : (1 <= slices)%Z.

Let sc : vec3.t := vec3.add start (vec3.ofArray c).
Let ec : vec3.t := vec3.add end_ (vec3.ofArray c).
Let a (k : nat) : vec3.t :=
  vec3.add (point sa rot start ray aX aY 0 (INR k / IZR slices) sr)
           (vec3.ofArray c).
Let b (k : nat) : vec3.t :=
  vec3.add (point sa rot start ray aX aY 1 (INR k / IZR slices) er)
           (vec3.ofArray c).

Lemma slice_edges_equal (i : nat) :
  fst er = fst sr -> snd er = snd sr ->
  flat_map edgesOf (slicePolygons c sr er sa rot slices start end_ ray aX aY i)
  = equalSliceEdges sc ec a b i.
Proof.
  intros H0 H1.
  assert (Her : er = sr) by (destruct er, sr; cbn [fst snd] in H0, H1; congruence).
  unfold slicePolygons. rewrite (eqb_true _ _ H0), (eqb_true _ _ H1).
  unfold equalSliceEdges, a, b, sc, ec. rewrite S_INR, Her. reflexivity.
Qed.

Lemma slice_edges_mixed (i : nat) :
  Num.eqb (fst er) (fst sr) && Num.eqb (snd er) (snd sr) = false ->
  0 < fst sr -> 0 < fst er ->
  flat_map edgesOf (slicePolygons c sr er sa rot slices start end_ ray aX aY i)
  = mixedSliceEdges sc ec a b i.
Proof.
  intros Hne Hs He.
  unfold slicePolygons, Num.gtb. rewrite Hne, !ltb_true by assumption.
  unfold mixedSliceEdges, a, b, sc, ec. rewrite S_INR. reflexivity.
Qed.

Lemma first_boundary (stack : R) (radius : R * R) :
  point sa rot start ray aX aY stack (INR 0 / IZR slices) radius
  = point sa rot start ray aX aY stack 0 radius.
Proof. cbn [INR]. unfold Rdiv. rewrite Rmult_0_l. reflexivity. Qed.

Lemma last_boundary (stack : R) (radius : R * R) :
  point sa rot start ray aX aY stack (INR (Z.to_nat slices) / IZR slices) radius
  = point sa rot start ray aX aY stack 1 radius.
Proof.
  rewrite INR_IZR_INZ, Z2Nat.id by lia.
  replace (IZR slices / IZR slices) with 1; [reflexivity |].
  apply IZR_le in slices_pos. field. lra.
Qed.

Lemma wall_edges :
  rot < PI * 2 ->
  flat_map edgesOf (wallPolygons c sr er sa rot start end_ ray aX aY)
  = wallEdges sc ec a b (Z.to_nat slices).
Proof.
  intros Hlt. unfold wallPolygons. rewrite (ltb_true _ _ Hlt).
  unfold wallEdges, a, b, sc, ec.
  rewrite !first_boundary, !last_boundary. reflexivity.
Qed.

Lemma full_turn_boundary (stack : R) (radius : R * R) :
  rot = PI * 2 ->
  point sa rot start ray aX aY stack 1 radius
  = point sa rot start ray aX aY stack 0 radius.
Proof.
  intros ->. unfold point; cbv zeta.
  replace (1 * (PI * 2) + sa) with (sa + 2 * INR 1 * PI) by (simpl; ring).
  replace (0 * (PI * 2) + sa) with sa by ring.
  rewrite cos_period, sin_period. reflexivity.
Qed.

(** The edges of the polygons that [cylinderElliptic] pushes, the walls
    included. *)
Lemma sweep_mesh_pairs :
  0 < fst sr -> 0 < fst er ->
  rot <= PI * 2 ->
  forall x y,
    In (x, y) (flat_map edgesOf
                 (sweepPolygons c sr er sa rot slices start end_ ray aX aY
                  ++ wallPolygons c sr er sa rot start end_ ray aX aY)) ->
    In (y, x) (flat_map edgesOf
                 (sweepPolygons c sr er sa rot slices start end_ ray aX aY
                  ++ wallPolygons c sr er sa rot start end_ ray aX aY)).
Proof.
  intros Hs He Hrot.
  rewrite flat_map_app, sweepPolygons_flat_map, flat_map_flat_map.
  assert (Hn : (1 <= Z.to_nat slices)%nat) by lia.
  assert (Hedges : exists edges,
            pairsLocally sc ec a b edges
            /\ forall i,
                 flat_map edgesOf
                   (slicePolygons c sr er sa rot slices start end_ ray aX aY i)
                 = edges i).
  { destruct (Num.eqb (fst er) (fst sr) && Num.eqb (snd er) (snd sr)) eqn:Heq.
    - apply andb_prop in Heq as [H0 H1]. unfold Num.eqb in H0, H1.
      destruct (Req_dec_T (fst er) (fst sr)) as [H0' |]; [| discriminate].
      destruct (Req_dec_T (snd er) (snd sr)) as [H1' |]; [| discriminate].
      exists (equalSliceEdges sc ec a b).
      split; [apply equalSliceEdges_pair |].
      intros i. apply slice_edges_equal; assumption.
    - exists (mixedSliceEdges sc ec a b).
      split; [apply mixedSliceEdges_pair |].
      intros i. apply slice_edges_mixed; assumption. }
  destruct Hedges as [edges [Hpair Hslice]].
  rewrite (flat_map_ext _ _ Hslice).
  destruct (Rlt_dec rot (PI * 2)) as [Hlt | Hfull].
  - rewrite (wall_edges Hlt).
    apply (partial_sweep_pairs sc ec a b edges Hpair _ Hn).
  - assert (Hfull' : rot = PI * 2) by lra.
    rewrite (walls_full _ _ _ _ _ _ _ _ _ _ Hfull'). cbn [flat_map].
    rewrite app_nil_r.
    apply (full_turn_pairs sc ec a b edges Hpair _ Hn).
    + unfold a. rewrite first_boundary, last_boundary.
      rewrite (full_turn_boundary _ _ Hfull'). reflexivity.
    + unfold b. rewrite first_boundary, last_boundary.
      rewrite (full_turn_boundary _ _ Hfull'). reflexivity.
Qed.

End SweepMeshEdges.



(** ** The ellipsoid has no free edge *)

Ltac in_edges := cbn [In]; repeat (first [left; reflexivity | right]).

Section HemispherePairing.

Variables (pt : nat * nat -> vec3.t) (qsegments : Z) (n : nat).
Hypothesis q_pos : (1 <= qsegments)%Z.
Hypothesis seam : forall j, pt (n, j) = pt (0%nat, j).
Hypothesis pole :
  forall i, pt (i, Z.to_nat qsegments) = pt (0%nat, Z.to_nat qsegments).

Lemma patchEdges_quad (i j0 : nat) :
  (S j0 < Z.to_nat qsegments)%nat ->
  patchEdges pt qsegments i (S j0)
  = [ (pt ((i - 1)%nat, j0), pt (i, j0));
      (pt (i, j0), pt (i, S j0));
      (pt (i, S j0), pt ((i - 1)%nat, S j0));
      (pt ((i - 1)%nat, S j0), pt ((i - 1)%nat, j0)) ].
Proof.
  intros H. unfold patchEdges, cellCorners.
  replace (Z.of_nat (S j0) <? qsegments)%Z with true
    by (symmetry; apply Z.ltb_lt; lia).
  replace (S j0 - 1)%nat with j0 by lia. reflexivity.
Qed.

Lemma patchEdges_triangle (i j0 : nat) :
  (Z.to_nat qsegments <= S j0)%nat ->
  patchEdges pt qsegments i (S j0)
  = [ (pt ((i - 1)%nat, j0), pt (i, j0));
      (pt (i, j0), pt ((i - 1)%nat, S j0));
      (pt ((i - 1)%nat, S j0), pt ((i - 1)%nat, j0)) ].
Proof.
  intros H. unfold patchEdges, cellCorners.
  replace (Z.of_nat (S j0) <? qsegments)%Z with false
    by (symmetry; apply Z.ltb_ge; lia).
  replace (S j0 - 1)%nat with j0 by lia. reflexivity.
Qed.

Lemma in_hemisphere (i j : nat) (e : vec3.t * vec3.t) :
  (1 <= i <= n)%nat -> (1 <= j <= Z.to_nat qsegments)%nat ->
  In e (patchEdges pt qsegments i j) ->
  In e (hemisphereEdges pt qsegments n).
Proof.
  intros Hi Hj He. unfold hemisphereEdges.
  apply in_flat_map. exists i. split; [apply in_seq; lia |].
  apply in_flat_map. exists j. split; [apply in_seq; lia | exact He].
Qed.

Lemma hemisphere_cell (e : vec3.t * vec3.t) :
  In e (hemisphereEdges pt qsegments n) ->
  exists i0 j0, (i0 < n)%nat /\ (j0 < Z.to_nat qsegments)%nat
    /\ In e (patchEdges pt qsegments (S i0) (S j0)).
Proof.
  unfold hemisphereEdges. intros He.
  apply in_flat_map in He as [i [Hi He]].
  apply in_flat_map in He as [j [Hj He]].
  apply in_seq in Hi, Hj.
  exists (i - 1)%nat, (j - 1)%nat.
  replace (S (i - 1)) with i by lia. replace (S (j - 1)) with j by lia.
  repeat split; [lia | lia | exact He].
Qed.

(** The equator is the lowest row of the hemisphere. *)
Lemma equator_in_hemisphere (i0 : nat) :
  (i0 < n)%nat ->
  In (pt (i0, 0%nat), pt (S i0, 0%nat)) (hemisphereEdges pt qsegments n).
Proof.
  intros Hi. apply (in_hemisphere (S i0) 1); [lia | lia |].
  destruct (Nat.lt_ge_cases 1 (Z.to_nat qsegments)) as [Hq | Hq].
  - rewrite patchEdges_quad by exact Hq.
    replace (S i0 - 1)%nat with i0 by lia. in_edges.
  - rewrite patchEdges_triangle by exact Hq.
    replace (S i0 - 1)%nat with i0 by lia. in_edges.
Qed.

(** The bottom edge of a cell faces the top edge of the cell below, or it is
    on the equator. *)
Lemma bottom_edge_pairs (i0 j0 : nat) :
  (i0 < n)%nat -> (j0 < Z.to_nat qsegments)%nat ->
  In (pt (S i0, j0), pt (i0, j0)) (hemisphereEdges pt qsegments n)
  \/ j0 = 0%nat.
Proof.
  intros Hi Hj. destruct j0 as [| j1]; [right; reflexivity | left].
  apply (in_hemisphere (S i0) (S j1)); [lia | lia |].
  rewrite patchEdges_quad by lia.
  replace (S i0 - 1)%nat with i0 by lia. in_edges.
Qed.

Lemma hemisphere_pairs (x y : vec3.t) :
  In (x, y) (hemisphereEdges pt qsegments n) ->
  In (y, x) (hemisphereEdges pt qsegments n)
  \/ exists i0, (i0 < n)%nat /\ x = pt (i0, 0%nat) /\ y = pt (S i0, 0%nat).
Proof.
  intros He. apply hemisphere_cell in He as [i0 [j0 [Hi [Hj He]]]].
  destruct (Nat.lt_ge_cases (S j0) (Z.to_nat qsegments)) as [Hq | Hq].
  - rewrite patchEdges_quad in He by exact Hq.
    replace (S i0 - 1)%nat with i0 in He by lia.
    destruct He as [He | [He | [He | [He | []]]]]; injection He as <- <-.
    + destruct (bottom_edge_pairs i0 j0 Hi Hj) as [H | ->];
        [left; exact H | right; exists i0; auto].
    + left. destruct (Nat.eq_dec (S i0) n) as [Hn | Hn].
      * apply (in_hemisphere 1 (S j0)); [lia | lia |].
        rewrite patchEdges_quad by exact Hq.
        rewrite Hn, !seam. cbn [Nat.sub]. in_edges.
      * apply (in_hemisphere (S (S i0)) (S j0)); [lia | lia |].
        rewrite patchEdges_quad by exact Hq.
        replace (S (S i0) - 1)%nat with (S i0) by lia. in_edges.
    + left. apply (in_hemisphere (S i0) (S (S j0))); [lia | lia |].
      destruct (Nat.lt_ge_cases (S (S j0)) (Z.to_nat qsegments)) as [Hq' | Hq'].
      * rewrite patchEdges_quad by exact Hq'.
        replace (S i0 - 1)%nat with i0 by lia. in_edges.
      * rewrite patchEdges_triangle by exact Hq'.
        replace (S i0 - 1)%nat with i0 by lia. in_edges.
    + left. destruct i0 as [| i1].
      * apply (in_hemisphere n (S j0)); [lia | lia |].
        rewrite patchEdges_quad by exact Hq.
        rewrite !seam. in_edges.
      * apply (in_hemisphere (S i1) (S j0)); [lia | lia |].
        rewrite patchEdges_quad by exact Hq. in_edges.
  - assert (HQ : Z.to_nat qsegments = S j0) by lia.
    assert (pole' : forall i, pt (i, S j0) = pt (0%nat, S j0))
      by (intros i; rewrite <- HQ; apply pole).
    rewrite patchEdges_triangle in He by exact Hq.
    replace (S i0 - 1)%nat with i0 in He by lia.
    destruct He as [He | [He | [He | []]]]; injection He as <- <-.
    + destruct (bottom_edge_pairs i0 j0 Hi Hj) as [H | ->];
        [left; exact H | right; exists i0; auto].
    + left. rewrite (pole' i0). destruct (Nat.eq_dec (S i0) n) as [Hn | Hn].
      * apply (in_hemisphere 1 (S j0)); [lia | lia |].
        rewrite patchEdges_triangle by exact Hq.
        rewrite Hn, !seam. cbn [Nat.sub]. in_edges.
      * apply (in_hemisphere (S (S i0)) (S j0)); [lia | lia |].
        rewrite patchEdges_triangle by exact Hq.
        replace (S (S i0) - 1)%nat with (S i0) by lia.
        rewrite (pole' (S i0)). in_edges.
    + left. rewrite (pole' i0). destruct i0 as [| i1].
      * apply (in_hemisphere n (S j0)); [lia | lia |].
        rewrite patchEdges_triangle by exact Hq.
        rewrite !seam, (pole' (n - 1)%nat). in_edges.
      * apply (in_hemisphere (S i1) (S j0)); [lia | lia |].
        rewrite patchEdges_triangle by exact Hq.
        replace (S i1 - 1)%nat with i1 by lia.
        rewrite (pole' i1). in_edges.
Qed.

End HemispherePairing.

Section TwoHemispheres.

Variables (lo up : nat * nat -> vec3.t) (qsegments : Z) (n : nat).
Hypothesis q_pos : (1 <= qsegments)%Z.
Hypothesis seam_lo : forall j, lo (n, j) = lo (0%nat, j).
Hypothesis seam_up : forall j, up (n, j) = up (0%nat, j).
Hypothesis pole_lo :
  forall i, lo (i, Z.to_nat qsegments) = lo (0%nat, Z.to_nat qsegments).
Hypothesis pole_up :
  forall i, up (i, Z.to_nat qsegments) = up (0%nat, Z.to_nat qsegments).
Hypothesis equator : forall i, lo (i, 0%nat) = up (i, 0%nat).

(** The lower hemisphere in the order of its corners and the upper one in
    the reverse order: the two share the equator, with opposite windings. *)
Lemma two_hemispheres_pair (x y : vec3.t) :
  In (x, y) (hemisphereEdges lo qsegments n)
  \/ In (y, x) (hemisphereEdges up qsegments n) ->
  In (y, x) (hemisphereEdges lo qsegments n)
  \/ In (x, y) (hemisphereEdges up qsegments n).
Proof.
  intros [H | H].
  - destruct (hemisphere_pairs lo qsegments n q_pos seam_lo pole_lo x y H)
      as [H' | [i0 [Hi [-> ->]]]]; [left; exact H' | right].
    rewrite !equator. apply equator_in_hemisphere; assumption.
  - destruct (hemisphere_pairs up qsegments n q_pos seam_up pole_up y x H)
      as [H' | [i0 [Hi [-> ->]]]]; [right; exact H' | left].
    rewrite <- !equator. apply equator_in_hemisphere; assumption.
Qed.

End TwoHemispheres.

Lemma scale_zero (v w : vec3.t) : vec3.scale 0 v = vec3.scale 0 w.
Proof. unfold vec3.scale. rewrite !Rmult_0_l. reflexivity. Qed.

Section EllipsoidEdges.

Variables (center : vec3.t) (segments qsegments : Z).
Variables (xvector yvector zvector : vec3.t).
Hypothesis segments_pos : (1 <= segments)%Z.
Hypothesis qsegments_pos' : (1 <= qsegments)%Z.

Let pointOf (sign : R) : nat * nat -> vec3.t :=
  surfacePoint center segments qsegments xvector yvector zvector sign.

(** The last longitude step is the first one: a whole turn. *)
Lemma surface_seam (sign : R) (j : nat) :
  pointOf sign (Z.to_nat segments, j) = pointOf sign (0%nat, j).
Proof.
  unfold pointOf, surfacePoint, cylinderPointAt. cbn [fst snd].
  rewrite INR_IZR_INZ, Z2Nat.id by lia.
  apply IZR_le in segments_pos.
  replace (PI * 2 * IZR segments / IZR segments) with (2 * PI) by (field; lra).
  replace (PI * 2 * INR 0 / IZR segments) with 0
    by (cbn [INR]; unfold Rdiv; ring).
  rewrite cos_2PI, sin_2PI, cos_0, sin_0. reflexivity.
Qed.

(** The last latitude step is the pole, whatever the longitude. *)
Lemma surface_pole (sign : R) (i : nat) :
  sign = 1 \/ sign = -1 ->
  pointOf sign (i, Z.to_nat qsegments)
  = pointOf sign (0%nat, Z.to_nat qsegments).
Proof.
  intros Hsign. unfold pointOf, surfacePoint, pitchAt. cbn [fst snd].
  rewrite INR_IZR_INZ, Z2Nat.id by lia.
  apply IZR_le in qsegments_pos'.
  replace (PI / 2 * IZR qsegments / IZR qsegments) with (PI / 2)
    by (field; lra).
  assert (Hcos : cos (sign * (PI / 2)) = 0).
  { destruct Hsign as [-> | ->].
    - rewrite Rmult_1_l. apply cos_PI2.
    - replace (-1 * (PI / 2)) with (- (PI / 2)) by ring.
      rewrite cos_neg. apply cos_PI2. }
  rewrite Hcos.
  rewrite (scale_zero (cylinderPointAt segments xvector yvector i)
                      (cylinderPointAt segments xvector yvector 0)).
  reflexivity.
Qed.

(** At the first latitude step the two hemispheres meet. *)
Lemma surface_equator (i : nat) : pointOf (-1) (i, 0%nat) = pointOf 1 (i, 0%nat).
Proof.
  unfold pointOf, surfacePoint, pitchAt. cbn [fst snd INR].
  replace (-1 * (PI / 2 * 0 / IZR qsegments)) with 0 by (unfold Rdiv; ring).
  replace (1 * (PI / 2 * 0 / IZR qsegments)) with 0 by (unfold Rdiv; ring).
  reflexivity.
Qed.

Lemma lowerPatch_edges (i j : nat) :
  edgesOf (lowerPatch center segments qsegments xvector yvector zvector i j)
  = patchEdges (pointOf (-1)) qsegments i j.
Proof. reflexivity. Qed.

Lemma upperPatch_edges (i j : nat) (x y : vec3.t) :
  In (x, y)
     (edgesOf (upperPatch center segments qsegments xvector yvector zvector i j))
  <-> In (y, x) (patchEdges (pointOf 1) qsegments i j).
Proof.
  unfold upperPatch, patchEdges, cellCorners. fold (pointOf 1).
  generalize (pointOf 1). intros f.
  destruct (Z.of_nat j <? qsegments)%Z;
    cbn [app map rev edgesOf poly3.vertices poly3.fromPoints combine In];
    split; intros H;
    repeat (destruct H as [H | H]; [injection H as <- <-; in_edges |]);
    destruct H.
Qed.

Lemma allPatches_edges (x y : vec3.t) :
  In (x, y)
     (flat_map edgesOf
        (allPatches center segments qsegments xvector yvector zvector))
  <-> In (x, y) (hemisphereEdges (pointOf (-1)) qsegments (Z.to_nat segments))
      \/ In (y, x) (hemisphereEdges (pointOf 1) qsegments (Z.to_nat segments)).
Proof.
  unfold allPatches, hemisphereEdges. split.
  - intros H. apply in_flat_map in H as [p [Hp He]].
    apply in_flat_map in Hp as [i [Hi Hp]].
    apply in_flat_map in Hp as [j [Hj Hp]].
    destruct Hp as [<- | [<- | []]].
    + left. apply in_flat_map. exists i. split; [exact Hi |].
      apply in_flat_map. exists j. split; [exact Hj |].
      rewrite <- lowerPatch_edges. exact He.
    + right. apply in_flat_map. exists i. split; [exact Hi |].
      apply in_flat_map. exists j. split; [exact Hj |].
      apply upperPatch_edges. exact He.
  - intros [H | H];
      apply in_flat_map in H as [i [Hi H]];
      apply in_flat_map in H as [j [Hj H]].
    + apply in_flat_map.
      exists (lowerPatch center segments qsegments xvector yvector zvector i j).
      split; [| rewrite lowerPatch_edges; exact H].
      apply in_flat_map. exists i. split; [exact Hi |].
      apply in_flat_map. exists j. split; [exact Hj | left; reflexivity].
    + apply in_flat_map.
      exists (upperPatch center segments qsegments xvector yvector zvector i j).
      split; [| apply upperPatch_edges; exact H].
      apply in_flat_map. exists i. split; [exact Hi |].
      apply in_flat_map. exists j.
      split; [exact Hj | right; left; reflexivity].
Qed.

Lemma allPatches_pair (x y : vec3.t) :
  In (x, y)
     (flat_map edgesOf
        (allPatches center segments qsegments xvector yvector zvector)) ->
  In (y, x)
     (flat_map edgesOf
        (allPatches center segments qsegments xvector yvector zvector)).
Proof.
  intros H. apply allPatches_edges in H. apply allPatches_edges.
  apply (two_hemispheres_pair (pointOf (-1)) (pointOf 1) qsegments
           (Z.to_nat segments) qsegments_pos'); try assumption.
  - apply surface_seam.
  - apply surface_seam.
  - intros i. apply surface_pole. right; reflexivity.
  - intros i. apply surface_pole. left; reflexivity.
  - apply surface_equator.
Qed.

End EllipsoidEdges.


